(** * pwa-getstarted: the service workers' caching policy

    A shallow embedding of [sw.js] (the hand-written service worker) and of
    the routing part of the Workbox worker, over a model of the browser
    objects they call: Cache Storage, [fetch], the console and the worker
    life cycle.  Promise chains become a state-and-error monad over a
    [World] that holds the cache storage and a chronological trace of the
    effects performed. *)

From stdpp Require Import gmap strings list fin_maps.
From Stdlib Require Import NArith.

Open Scope string_scope.
Open Scope list_scope.

(** ** Data model *)

(** A JavaScript exception value, as far as the workers can tell them apart. *)
Inductive JsError :=
  | TypeError (msg : string)
  | DOMException (name : string).

Inductive ResponseType := basic | cors | opaque | error.

Record Response := mkResponse {
  rtype : ResponseType;
  status : N;
  body : string
}.

Record Request := mkRequest {
  method : string;
  url : string;
  mode : string;
  destination : string
}.

(** [Response.ok]: a status in 200..299. *)
Definition ok (r : Response) : bool := (200 <=? status r)%N && (status r <=? 299)%N.

(** [Response.error()]. *)
Definition Response_error : Response :=
  {| rtype := error; status := 0; body := "" |}.

(** What a promise settles to. *)
Inductive Settled (A : Type) :=
  | Fulfilled (a : A)
  | Rejected (e : JsError).
Arguments Fulfilled {A} a.
Arguments Rejected {A} e.

(** One named cache: request URL to stored response. *)
Abbreviation Cache := (gmap string Response).

(** Cache Storage keeps its caches in creation order: [caches.keys()] lists
    them and [caches.match] searches them in that order. *)
Abbreviation CacheStorage := (list (string * Cache)).

(** Observable effects, in the order they happen.  A JavaScript
    [undefined] response is [None]. *)
Inductive Effect :=
  | ConsoleLog (msg : string) (arg : option string)
  | ConsoleError (msg : string) (err : JsError)
  | CachesOpen (name : string)
  | CachesKeys
  | CachesDelete (name : string)
  | CachesMatch (key : string)
  | CacheAddAll (name : string)
  | CachePut (name : string) (key : string)
  | NetFetch (key : string)
  | SkipWaiting
  | ClientsClaim.

Record World := mkWorld {
  storage : CacheStorage;
  trace : list Effect
}.

(** The worker's surroundings: its location, the network and the storage
    back end.  [network] answers a request with a response (possibly
    [undefined]) or a rejection; [put_ok] and [delete_ok] say which writes
    and deletions the storage back end accepts. *)
Record Env := mkEnv {
  origin : string;
  base : string;
  network : Request -> Settled (option Response);
  put_ok : string -> bool;
  delete_ok : string -> bool
}.

(** ** Promises *)

Definition Promise (A : Type) : Type := World -> Settled A * World.

Definition resolve {A} (a : A) : Promise A := fun w => (Fulfilled a, w).
Definition reject {A} (e : JsError) : Promise A := fun w => (Rejected e, w).

Definition then_ {A B} (p : Promise A) (f : A -> Promise B) : Promise B :=
  fun w =>
    match p w with
    | (Fulfilled a, w') => f a w'
    | (Rejected e, w') => (Rejected e, w')
    end.

Definition catch_ {A} (p : Promise A) (h : JsError -> Promise A) : Promise A :=
  fun w =>
    match p w with
    | (Fulfilled a, w') => (Fulfilled a, w')
    | (Rejected e, w') => h e w'
    end.

(** A promise that is started and whose outcome nobody looks at. *)
Definition detach {A} (p : Promise A) : Promise unit :=
  fun w => (Fulfilled tt, snd (p w)).

(** [Promise.all] over promises that have all been started already: every
    one runs, the first rejection (if any) is the result. *)
Fixpoint Promise_all {A} (ps : list (Promise A)) : Promise (list A) :=
  fun w =>
    match ps with
    | [] => (Fulfilled [], w)
    | p :: ps' =>
        let (r, w1) := p w in
        let (rs, w2) := Promise_all ps' w1 in
        (match r, rs with
         | Fulfilled a, Fulfilled l => Fulfilled (a :: l)
         | Rejected e, _ => Rejected e
         | Fulfilled _, Rejected e => Rejected e
         end, w2)
    end.

Declare Scope promise_scope.
Delimit Scope promise_scope with promise.
Notation "p '>>then' f" := (then_ p f)
  (at level 61, left associativity) : promise_scope.
Notation "p '>>catch' h" := (catch_ p h)
  (at level 61, left associativity) : promise_scope.
Notation "s ;; p" := (then_ s (fun _ => p))
  (at level 100, p at level 200, right associativity) : promise_scope.
Open Scope promise_scope.

(** ** Browser primitives *)

Definition emit (e : Effect) : Promise unit :=
  fun w => (Fulfilled tt, {| storage := storage w; trace := trace w ++ [e] |}).

Definition console_log (msg : string) (arg : option string) : Promise unit :=
  emit (ConsoleLog msg arg).

Definition console_error (msg : string) (err : JsError) : Promise unit :=
  emit (ConsoleError msg err).

Definition skipWaiting : Promise unit := emit SkipWaiting.
Definition clients_claim : Promise unit := emit ClientsClaim.

(** Resolution of the relative references the workers use (["./path"])
    against the worker's base URL; anything else is taken as absolute. *)
Definition resolveURL (env : Env) (u : string) : string :=
  if String.prefix "./" u
  then base env +:+ String.substring 2 (String.length u - 2) u
  else u.

Definition GET (u : string) : Request :=
  {| method := "GET"; url := u; mode := "cors"; destination := "" |}.

Definition has_cache (name : string) (s : CacheStorage) : bool :=
  existsb (fun c => String.eqb (fst c) name) s.

Fixpoint get_cache (name : string) (s : CacheStorage) : option Cache :=
  match s with
  | [] => None
  | (n, c) :: s' => if String.eqb n name then Some c else get_cache name s'
  end.

Fixpoint update_cache (name : string) (f : Cache -> Cache) (s : CacheStorage)
  : CacheStorage :=
  match s with
  | [] => []
  | (n, c) :: s' =>
      if String.eqb n name then (n, f c) :: s'
      else (n, c) :: update_cache name f s'
  end.

Definition remove_cache (name : string) (s : CacheStorage) : CacheStorage :=
  List.filter (fun c => negb (String.eqb (fst c) name)) s.

(** [caches.match]: the first cache, in creation order, that has the key. *)
Fixpoint storage_match (key : string) (s : CacheStorage) : option Response :=
  match s with
  | [] => None
  | (_, c) :: s' =>
      match c !! key with
      | Some r => Some r
      | None => storage_match key s'
      end
  end.

Definition with_storage (f : CacheStorage -> CacheStorage) (w : World) : World :=
  {| storage := f (storage w); trace := trace w |}.

(** [caches.open(name)]: the cache is created when it does not exist.  The
    handle it resolves to is the cache's name. *)
Definition ensure_cache (name : string) (s : CacheStorage) : CacheStorage :=
  if has_cache name s then s else s ++ [(name, ∅)].

Definition caches_open (name : string) : Promise string :=
  emit (CachesOpen name) ;;
  fun w => (Fulfilled name, with_storage (ensure_cache name) w).

Definition caches_keys : Promise (list string) :=
  emit CachesKeys ;; fun w => (Fulfilled (map fst (storage w)), w).

(** [caches.delete(name)] resolves to whether the cache existed. *)
Definition caches_delete (env : Env) (name : string) : Promise bool :=
  emit (CachesDelete name) ;;
  fun w =>
    if delete_ok env name
    then (Fulfilled (has_cache name (storage w)),
          with_storage (remove_cache name) w)
    else (Rejected (DOMException "UnknownError"), w).

Definition caches_match (key : string) : Promise (option Response) :=
  emit (CachesMatch key) ;;
  fun w => (Fulfilled (storage_match key (storage w)), w).

Definition fetch (env : Env) (request : Request) : Promise (option Response) :=
  emit (NetFetch (url request)) ;; fun w => (network env request, w).

(** [cache.put(request, response)]. *)
Definition cache_put (env : Env) (cache : string) (request : Request)
    (response : Response) : Promise unit :=
  emit (CachePut cache (url request)) ;;
  if negb (String.eqb (method request) "GET") then
    reject (TypeError "Request method is unsupported")
  else if (status response =? 206)%N then
    reject (TypeError "Partial response is unsupported")
  else if put_ok env (url request) then
    fun w => (Fulfilled tt,
              with_storage (update_cache cache (fun c => <[url request := response]> c)) w)
  else reject (DOMException "QuotaExceededError").

(** What [cache.addAll] accepts from the network. *)
Definition addAll_accepts (r : Settled (option Response)) : option Response :=
  match r with
  | Fulfilled (Some resp) =>
      if ok resp && negb (status resp =? 206)%N
         && negb (match rtype resp with error => true | _ => false end)
      then Some resp else None
  | _ => None
  end.

(** Fetch every URL; [Some] of the (key, response) pairs when every answer
    is acceptable. *)
Fixpoint addAll_collect (env : Env) (urls : list string)
  : option (list (string * Response)) :=
  match urls with
  | [] => Some []
  | u :: urls' =>
      match addAll_accepts (network env (GET (resolveURL env u))),
            addAll_collect env urls' with
      | Some r, Some l => Some ((resolveURL env u, r) :: l)
      | _, _ => None
      end
  end.

(** [cache.addAll(urls)]: all or nothing. *)
Definition cache_addAll (env : Env) (cache : string) (urls : list string)
  : Promise unit :=
  emit (CacheAddAll cache) ;;
  foldr (fun u k => emit (NetFetch (resolveURL env u)) ;; k) (resolve tt) urls ;;
  match addAll_collect env urls with
  | None => reject (TypeError "Failed to fetch")
  | Some entries =>
      if forallb (fun e => put_ok env (fst e)) entries
      then fun w =>
             (Fulfilled tt,
              with_storage (update_cache cache (fun c => list_to_map entries ∪ c)) w)
      else reject (DOMException "QuotaExceededError")
  end.

(** ** sw.js *)

Module SW.

Definition CACHE_NAME : string := "pwa-getstarted-v1".

Definition CACHE_URLS : list string :=
  [ "./";
    "./index.html";
    "./styles.css";
    "./app.js";
    "./manifest.json";
    "./icons/icon-72.png";
    "./icons/icon-96.png";
    "./icons/icon-128.png";
    "./icons/icon-144.png";
    "./icons/icon-152.png";
    "./icons/icon-192.png";
    "./icons/icon-384.png";
    "./icons/icon-512.png" ].

(** The promise the install listener hands to [event.waitUntil]. *)
Definition install_promise (env : Env) : Promise unit :=
  caches_open CACHE_NAME
    >>then (fun cache =>
      console_log "[ServiceWorker] Caching app shell" None ;;
      cache_addAll env cache CACHE_URLS)
    >>then (fun _ =>
      console_log "[ServiceWorker] Skip waiting" None ;;
      skipWaiting)
    >>catch (fun error =>
      console_error "[ServiceWorker] Cache failed:" error).

Definition on_install (env : Env) : Promise unit :=
  console_log "[ServiceWorker] Install" None ;;
  install_promise env.

(** The promise the activate listener hands to [event.waitUntil]. *)
Definition activate_promise (env : Env) : Promise unit :=
  caches_keys
    >>then (fun cacheNames =>
      Promise_all
        (map (fun cacheName =>
                console_log "[ServiceWorker] Removing old cache:" (Some cacheName) ;;
                caches_delete env cacheName)
             (List.filter (fun cacheName => negb (String.eqb cacheName CACHE_NAME))
                          cacheNames)))
    >>then (fun _ =>
      console_log "[ServiceWorker] Claiming clients" None ;;
      clients_claim).

Definition on_activate (env : Env) : Promise unit :=
  console_log "[ServiceWorker] Activate" None ;;
  activate_promise env.

(** The promise the fetch listener hands to [event.respondWith]. *)
Definition respond_promise (env : Env) (request : Request)
  : Promise (option Response) :=
  caches_match (url request)
    >>then (fun cachedResponse =>
      match cachedResponse with
      | Some r =>
          console_log "[ServiceWorker] Serving from cache:" (Some (url request)) ;;
          resolve (Some r)
      | None =>
          console_log "[ServiceWorker] Fetching:" (Some (url request)) ;;
          (fetch env request
            >>then (fun networkResponse =>
              match networkResponse with
              | None => resolve None
              | Some nr =>
                  if negb (status nr =? 200)%N then resolve (Some nr)
                  else
                    detach (caches_open CACHE_NAME
                              >>then (fun cache =>
                                detach (cache_put env cache request nr))) ;;
                    resolve (Some nr)
              end)
            >>catch (fun error =>
              console_error "[ServiceWorker] Fetch failed:" error ;;
              if String.eqb (mode request) "navigate"
              then caches_match (resolveURL env "./index.html")
              else reject error))
      end).

(** The fetch listener: [None] when it returns without calling
    [event.respondWith], so that the browser handles the request itself. *)
Definition on_fetch (env : Env) (request : Request)
  : World -> option (Settled (option Response)) * World :=
  fun w =>
    if negb (String.eqb (method request) "GET") then (None, w)
    else if negb (String.prefix (origin env) (url request)) then (None, w)
    else let (r, w') := respond_promise env request w in (Some r, w').

End SW.

(** ** The Workbox worker (second part of app.js) *)

Module Workbox.

(** [workbox.core.setCacheNameDetails]. *)
Definition prefix : string := "pwa-getstarted".
Definition suffix : string := "v1".
Definition precache : string := "precache".
Definition runtime : string := "runtime".

(** The manifest given to [precacheAndRoute]: URL and revision. *)
Definition precacheManifest : list (string * string) :=
  [ ("./", "1");
    ("./index.html", "1");
    ("./styles.css", "1");
    ("./app.js", "1");
    ("./manifest.json", "1");
    ("./icons/icon-72.png", "1");
    ("./icons/icon-96.png", "1");
    ("./icons/icon-128.png", "1");
    ("./icons/icon-144.png", "1");
    ("./icons/icon-152.png", "1");
    ("./icons/icon-192.png", "1");
    ("./icons/icon-384.png", "1");
    ("./icons/icon-512.png", "1") ].





(** The function given to [workbox.routing.setCatchHandler].  The library's
    [matchPrecache] is a parameter. *)
Definition catchHandler (matchPrecache : string -> Promise (option Response))
    (request : Request) : Promise (option Response) :=
  if String.eqb (mode request) "navigate"
  then matchPrecache "./index.html"
  else resolve (Some Response_error).

End Workbox.

(** ** Running a handler *)

(** A handler run on a given storage, with a fresh trace. *)
Definition fresh (s : CacheStorage) : World := {| storage := s; trace := [] |}.

Definition run {A} (p : Promise A) (s : CacheStorage) : Settled A * World :=
  p (fresh s).

Definition is_NetFetch (e : Effect) : bool :=
  match e with NetFetch _ => true | _ => false end.

Definition is_CacheWrite (e : Effect) : bool :=
  match e with CachePut _ _ | CacheAddAll _ => true | _ => false end.

(** The number of network calls in a trace. *)
Definition network_calls (tr : list Effect) : nat :=
  length (List.filter is_NetFetch tr).

#[global] Instance JsError_eq_dec : EqDecision JsError.
Proof. solve_decision. Defined.

#[global] Instance Effect_eq_dec : EqDecision Effect.
Proof. solve_decision. Defined.

(** A request the fetch listener does not skip. *)
Definition eligible (env : Env) (request : Request) : bool :=
  String.eqb (method request) "GET" && String.prefix (origin env) (url request).

(** The origin of an absolute URL: scheme, host and port, that is
    everything before the first ["/"] that follows ["://"]. *)
Definition url_origin (u : string) : string :=
  match String.index 0 "://" u with
  | Some i =>
      match String.index (i + 3) "/" u with
      | Some j => String.substring 0 j u
      | None => u
      end
  | None => u
  end.

(** Every stored response, in every cache, has a successful status. *)
Definition all_stored_ok (s : CacheStorage) : Prop :=
  forall name (c : Cache) key r,
    (name, c) ∈ s -> c !! key = Some r -> ok r = true.

(** ** The worker life cycle *)

Module Lifecycle.

Inductive WorkerState :=
  | installing | installed | activating | activated | redundant.

(** The hosting runtime's side of [event.waitUntil] at install: the worker
    is installed when the promise fulfils, and discarded when it rejects. *)
Definition install_phase (env : Env) (s : CacheStorage) : WorkerState * World :=
  let (r, w) := run (SW.on_install env) s in
  (match r with
   | Fulfilled _ => installed
   | Rejected _ => redundant
   end, w).

(** An installed worker goes on to activate when no earlier worker controls
    a client, or at once when it has called [skipWaiting]. *)
Definition activates (controlled_by_previous : bool) (st : WorkerState)
    (w : World) : bool :=
  match st with
  | installed => negb controlled_by_previous || bool_decide (SkipWaiting ∈ trace w)
  | _ => false
  end.

(** Any sequence of install, activate and fetch events, each in its own
    surroundings. *)
Inductive step : CacheStorage -> CacheStorage -> Prop :=
  | step_install env s :
      step s (storage (snd (run (SW.on_install env) s)))
  | step_activate env s :
      step s (storage (snd (run (SW.on_activate env) s)))
  | step_fetch env request s :
      step s (storage (snd (SW.on_fetch env request (fresh s)))).

Definition reachable (s : CacheStorage) : Prop := rtc step [] s.

End Lifecycle.

(** ** What the handlers compute, in closed form *)

(** The outcome of [cache.addAll]: the entries to store, or the error it
    rejects with. *)
Definition addAll_result (env : Env) (urls : list string)
  : JsError + list (string * Response) :=
  match addAll_collect env urls with
  | None => inl (TypeError "Failed to fetch")
  | Some entries =>
      if forallb (fun e => put_ok env (fst e)) entries
      then inr entries
      else inl (DOMException "QuotaExceededError")
  end.

(** The effects of an install, up to its last step. *)
Definition install_trace (env : Env) (tail : list Effect) : list Effect :=
  [ ConsoleLog "[ServiceWorker] Install" None;
    CachesOpen SW.CACHE_NAME;
    ConsoleLog "[ServiceWorker] Caching app shell" None;
    CacheAddAll SW.CACHE_NAME ]
  ++ map (fun u => NetFetch (resolveURL env u)) SW.CACHE_URLS ++ tail.

(** The cache names the activate listener sets out to delete. *)
Definition stale_names (s : CacheStorage) : list string :=
  List.filter (fun cacheName => negb (String.eqb cacheName SW.CACHE_NAME))
              (map fst s).

Definition delete_all (env : Env) (names : list string) (s : CacheStorage)
  : CacheStorage :=
  foldl (fun s' n => if delete_ok env n then remove_cache n s' else s') s names.

Definition delete_trace (names : list string) : list Effect :=
  flat_map (fun n => [ ConsoleLog "[ServiceWorker] Removing old cache:" (Some n);
                       CachesDelete n ]) names.

(** ** Sample surroundings *)

Module Sample.

Definition page (b : string) : Response :=
  {| rtype := basic; status := 200; body := b |}.

Definition online (request : Request) : Settled (option Response) :=
  Fulfilled (Some (page ("fresh " +:+ url request))).

Definition offline (request : Request) : Settled (option Response) :=
  Rejected (TypeError "Failed to fetch").

(** One manifest entry is missing on the server. *)
Definition one_missing (request : Request) : Settled (option Response) :=
  if String.eqb (url request) "https://pwa.example/app/styles.css"
  then Fulfilled (Some {| rtype := basic; status := 404; body := "Not Found" |})
  else online request.

Definition not_found (request : Request) : Settled (option Response) :=
  Fulfilled (Some {| rtype := basic; status := 404; body := "Not Found" |}).

Definition env_with (net : Request -> Settled (option Response)) : Env :=
  {| origin := "https://pwa.example";
     base := "https://pwa.example/app/";
     network := net;
     put_ok := fun _ => true;
     delete_ok := fun _ => true |}.

Definition navigate (u : string) : Request :=
  {| method := "GET"; url := u; mode := "navigate"; destination := "document" |}.

Definition image (u : string) : Request :=
  {| method := "GET"; url := u; mode := "no-cors"; destination := "image" |}.

Definition about_url : string := "https://pwa.example/app/about.html".
Definition icon_url : string := "https://pwa.example/app/icons/icon-72.png".

(** A storage whose current cache holds an older copy of a page. *)
Definition stale_storage : CacheStorage :=
  [ (SW.CACHE_NAME, {[ about_url := page "stale about" ]}) ].

(** A storage left by earlier worker versions. *)
Definition old_storage : CacheStorage :=
  [ ("pwa-getstarted-v0", {[ about_url := page "v0 about" ]});
    (SW.CACHE_NAME, {[ about_url := page "stale about" ]});
    ("other-cache", ∅) ].

(** A development set-up: the page is served on port 80, an API on 8080. *)
Definition env_localhost : Env :=
  {| origin := "http://localhost";
     base := "http://localhost/";
     network := online;
     put_ok := fun _ => true;
     delete_ok := fun _ => true |}.

Definition api_request : Request :=
  {| method := "GET"; url := "http://localhost:8080/api/items";
     mode := "cors"; destination := "" |}.

End Sample.

(** ** Storage the worker can be in *)

(** The worker creates no cache but its own. *)
Definition only_current (s : CacheStorage) : Prop :=
  s = [] \/ exists c : Cache, s = [ (SW.CACHE_NAME, c) ].

(** ** Background sync in the Workbox worker (second part of app.js) *)

Module BackgroundSync.

(** [maxRetentionTime], in minutes. *)
Definition maxRetentionTime : N := 24 * 60.

(** An entry of the retry queue. *)
Record Entry := mkEntry {
  request : Request;
  timestamp : N
}.

(** The library's queue, as the list of its entries, oldest first:
    [shiftRequest] takes the first entry off (and yields [undefined] on an
    empty queue), [unshiftRequest] puts an entry back in front. *)
Definition shiftRequest (queue : list Entry) : option Entry * list Entry :=
  match queue with
  | [] => (None, [])
  | entry :: rest => (Some entry, rest)
  end.

Definition unshiftRequest (entry : Entry) (queue : list Entry) : list Entry :=
  entry :: queue.

(** The [while] loop of [onSync]: what it settles to, the queue it leaves
    and its effects. *)
Fixpoint replay (env : Env) (queue : list Entry)
  : Settled unit * list Entry * list Effect :=
  match queue with
  | [] => (Fulfilled tt, [], [])
  | entry :: rest =>
      match network env (request entry) with
      | Fulfilled _ =>
          let '(r, queue', tr) := replay env rest in
          (r, queue',
           NetFetch (url (request entry))
           :: ConsoleLog "[Workbox] Replay successful for:" (Some (url (request entry)))
           :: tr)
      | Rejected err =>
          (Rejected err, unshiftRequest entry rest,
           [ NetFetch (url (request entry));
             ConsoleError "[Workbox] Replay failed:" err ])
      end
  end.



End BackgroundSync.

(** ** The page script (first part of app.js): the PWA checklist *)

Module App.

(** A checklist element: its class list, and the text of its
    [.check-icon] child when it has one. *)
Record Item := mkItem {
  classList : list string;
  checkIcon : option string
}.

(** [classList.remove(...tokens)] and [classList.add(token)]. *)
Definition classList_remove (tokens : list string) (cl : list string)
  : list string :=
  filter (fun t => t ∉ tokens) cl.

Definition classList_add (token : string) (cl : list string) : list string :=
  if decide (token ∈ cl) then cl else cl ++ [token].

Definition statusClasses : list string := [ "success"; "warning"; "error" ].

(** The document, as far as [getElementById] sees it. *)
Definition updateChecklistItem (id status icon : string)
    (doc : gmap string Item) : gmap string Item :=
  match doc !! id with
  | Some item =>
      <[ id := {| classList :=
                    classList_add status
                      (classList_remove [ "success"; "warning"; "error" ]
                         (classList item));
                  checkIcon := match checkIcon item with
                               | Some _ => Some icon
                               | None => None
                               end |} ]> doc
  | None => doc
  end.


Record Icon := mkIcon { sizes : option string }.

Record Manifest := mkManifest { icons : option (list Icon) }.

(** What [fetch(manifestLink.href)] resolves to: [response.ok] and the
    outcome of [response.json()]. *)
Record ManifestResponse := mkManifestResponse {
  response_ok : bool;
  json : Settled Manifest
}.

(** What [verifyPWAChecklist] reads: the location, the manifest link's
    [href] and the viewport meta's [content] when the elements exist, and
    the network. *)
Record Page := mkPage {
  protocol : string;
  hostname : string;
  manifestLink : option string;
  viewportMeta : option string;
  fetchManifest : string -> Settled ManifestResponse
}.

(** What the script does to the outside, in order. *)
Inductive Call :=
  | Update (id status icon : string)
  | Log (msg : string)
  | LogError (msg : string) (err : JsError).





End App.

(** ** The page script (first part of app.js): the install prompt *)

Module InstallPrompt.

(** What the script does to the outside, in order. *)
Inductive Call :=
  | Log (msg : string)
  | PreventDefault (e : N)
  | Prompt (e : N).

(** The script's state: the captured [beforeinstallprompt] event (by
    identity), the [style.display] of the two install buttons ([None] for
    a button that is not in the page), and the calls made so far. *)
Record State := mkState {
  deferredPrompt : option N;
  installBtn : option string;
  installBtnAction : option string;
  calls : list Call
}.

(** [if (btn) btn.style.display = value]. *)
Definition setDisplay (value : string) (btn : option string) : option string :=
  match btn with
  | Some _ => Some value
  | None => None
  end.

(** The [beforeinstallprompt] listener. *)
Definition onBeforeInstallPrompt (e : N) (st : State) : State :=
  {| deferredPrompt := Some e;
     installBtn := setDisplay "inline-flex" (installBtn st);
     installBtnAction := setDisplay "inline-flex" (installBtnAction st);
     calls := calls st ++ [ Log "beforeinstallprompt fired"; PreventDefault e ] |}.

(** [handleInstallClick] up to its [await]: [true] when it is left waiting
    for the user's choice. *)
Definition handleInstallClick (st : State) : bool * State :=
  match deferredPrompt st with
  | None =>
      (false,
       {| deferredPrompt := None;
          installBtn := installBtn st;
          installBtnAction := installBtnAction st;
          calls := calls st ++ [ Log "No install prompt available" ] |})
  | Some e =>
      (true,
       {| deferredPrompt := Some e;
          installBtn := installBtn st;
          installBtnAction := installBtnAction st;
          calls := calls st ++ [ Prompt e ] |})
  end.

(** [handleInstallClick] after its [await], once the user has chosen. *)
Definition handleInstallClick_resume (outcome : string) (st : State) : State :=
  {| deferredPrompt := None;
     installBtn := setDisplay "none" (installBtn st);
     installBtnAction := setDisplay "none" (installBtnAction st);
     calls := calls st
              ++ [ Log ("User response to install prompt: " +:+ outcome) ]
              ++ (if String.eqb outcome "accepted"
                  then [ Log "User accepted the install prompt" ] else []) |}.

(** The [appinstalled] listener. *)
Definition onAppInstalled (st : State) : State :=
  {| deferredPrompt := None;
     installBtn := installBtn st;
     installBtnAction := installBtnAction st;
     calls := calls st ++ [ Log "PWA was installed" ] |}.

(** The page as it runs: a state and the number of clicks that wait for
    the user's choice.  Events arrive in any order; a choice can only
    settle for a click that waits. *)
Inductive step : State * nat -> State * nat -> Prop :=
  | step_beforeinstallprompt e st pending :
      step (st, pending) (onBeforeInstallPrompt e st, pending)
  | step_click st pending :
      step (st, pending)
           (snd (handleInstallClick st),
            if fst (handleInstallClick st) then S pending else pending)
  | step_choice outcome st pending :
      step (st, S pending) (handleInstallClick_resume outcome st, pending)
  | step_appinstalled st pending :
      step (st, pending) (onAppInstalled st, pending).

(** At load no event is captured and nothing has been called; the buttons
    are as the page has them. *)
Definition initial (btn btnAction : option string) : State :=
  {| deferredPrompt := None;
     installBtn := btn;
     installBtnAction := btnAction;
     calls := [] |}.

Definition shown (btn : option string) : Prop :=
  forall display, btn = Some display -> display = "inline-flex".

End InstallPrompt.

(** What holds of the install prompt at every moment. *)
Definition prompt_inv (st : InstallPrompt.State) : Prop :=
  (forall e, InstallPrompt.deferredPrompt st = Some e ->
     InstallPrompt.shown (InstallPrompt.installBtn st)
     /\ InstallPrompt.shown (InstallPrompt.installBtnAction st)
     /\ InstallPrompt.PreventDefault e ∈ InstallPrompt.calls st)
  /\ (forall e, InstallPrompt.Prompt e ∈ InstallPrompt.calls st ->
        InstallPrompt.PreventDefault e ∈ InstallPrompt.calls st).


(** ** More sample surroundings *)

Module Fixture.

(** A storage back end that refuses to delete one old cache. *)
Definition env_stuck_delete : Env :=
  {| origin := "https://pwa.example";
     base := "https://pwa.example/app/";
     network := Sample.online;
     put_ok := fun _ => true;
     delete_ok := fun name => negb (String.eqb name "pwa-getstarted-v0") |}.

Definition post (u : string) : Request :=
  {| method := "POST"; url := u; mode := "cors"; destination := "" |}.

(** Three queued requests; the server of the second one is unreachable,
    the third is answered with an error status. *)
Definition queue : list BackgroundSync.Entry :=
  [ {| BackgroundSync.request := post "https://pwa.example/api/a";
       BackgroundSync.timestamp := 1 |};
    {| BackgroundSync.request := post "https://pwa.example/api/b";
       BackgroundSync.timestamp := 2 |};
    {| BackgroundSync.request := post "https://pwa.example/api/c";
       BackgroundSync.timestamp := 3 |} ].



(** A checklist with one item that shows a warning. *)
Definition checklist : gmap string App.Item :=
  {[ "check-sw" := {| App.classList := [ "checklist-item"; "warning" ];
                      App.checkIcon := Some "?" |} ]}.

(** A page on plain http whose manifest lists a single icon. *)
Definition page : App.Page :=
  {| App.protocol := "http:";
     App.hostname := "pwa.example";
     App.manifestLink := Some "https://pwa.example/app/manifest.json";
     App.viewportMeta := Some "width=device-width, initial-scale=1";
     App.fetchManifest := fun _ =>
       Fulfilled
         {| App.response_ok := true;
            App.json := Fulfilled
              {| App.icons := Some [ {| App.sizes := Some "192x192 512x512" |} ] |} |} |}.

End Fixture.

(** * Properties *)

(** ** The fetch listener, case by case *)

Ltac unfold_promise :=
  unfold run, fresh, SW.on_fetch, SW.respond_promise, eligible,
    then_, catch_, detach, caches_match, fetch, caches_open, cache_put,
    console_log, console_error, emit, resolve, reject, with_storage in *.

Section Fetch.
Context (env : Env) (request : Request) (s : CacheStorage).

Lemma eligible_split :
  eligible env request = true ->
  String.eqb (method request) "GET" = true /\
  String.prefix (origin env) (url request) = true.
Proof. unfold eligible. intros H. by apply andb_true_iff in H. Qed.

Lemma on_fetch_skips (w : World) :
  eligible env request = false -> SW.on_fetch env request w = (None, w).
Proof.
  unfold eligible, SW.on_fetch. intros H.
  apply andb_false_iff in H as [-> | ->]; simpl; [done |].
  by destruct (String.eqb (method request) "GET").
Qed.

Lemma on_fetch_hit r :
  eligible env request = true ->
  storage_match (url request) s = Some r ->
  SW.on_fetch env request (fresh s) =
    (Some (Fulfilled (Some r)),
     {| storage := s;
        trace := [ CachesMatch (url request);
                   ConsoleLog "[ServiceWorker] Serving from cache:" (Some (url request)) ] |}).
Proof.
  intros [Hm Ho]%eligible_split Hhit.
  unfold_promise. rewrite Hm, Ho. simpl. by rewrite Hhit.
Qed.

Lemma on_fetch_miss_unsuccessful nr :
  eligible env request = true ->
  storage_match (url request) s = None ->
  network env request = Fulfilled nr ->
  (nr = None \/ exists r, nr = Some r /\ status r <> 200%N) ->
  SW.on_fetch env request (fresh s) =
    (Some (Fulfilled nr),
     {| storage := s;
        trace := [ CachesMatch (url request);
                   ConsoleLog "[ServiceWorker] Fetching:" (Some (url request));
                   NetFetch (url request) ] |}).
Proof.
  intros [Hm Ho]%eligible_split Hmiss Hnet Hbad.
  unfold_promise. rewrite Hm, Ho. simpl. rewrite Hmiss. simpl. rewrite Hnet.
  destruct Hbad as [-> | (r & -> & Hst)]; [done |].
  apply N.eqb_neq in Hst. by rewrite Hst.
Qed.

Lemma on_fetch_miss_success nr :
  eligible env request = true ->
  storage_match (url request) s = None ->
  network env request = Fulfilled (Some nr) ->
  status nr = 200%N ->
  SW.on_fetch env request (fresh s) =
    (Some (Fulfilled (Some nr)),
     {| storage :=
          if put_ok env (url request)
          then update_cache SW.CACHE_NAME (fun c => <[url request := nr]> c)
                 (ensure_cache SW.CACHE_NAME s)
          else ensure_cache SW.CACHE_NAME s;
        trace := [ CachesMatch (url request);
                   ConsoleLog "[ServiceWorker] Fetching:" (Some (url request));
                   NetFetch (url request);
                   CachesOpen SW.CACHE_NAME;
                   CachePut SW.CACHE_NAME (url request) ] |}).
Proof.
  intros [Hm Ho]%eligible_split Hmiss Hnet Hst.
  unfold_promise. rewrite Hm, Ho. simpl. rewrite Hmiss. simpl. rewrite Hnet.
  rewrite Hst. simpl.
  by destruct (put_ok env (url request)).
Qed.

Lemma on_fetch_miss_rejected e :
  eligible env request = true ->
  storage_match (url request) s = None ->
  network env request = Rejected e ->
  SW.on_fetch env request (fresh s) =
    (Some (if String.eqb (mode request) "navigate"
           then Fulfilled (storage_match (resolveURL env "./index.html") s)
           else Rejected e),
     {| storage := s;
        trace := [ CachesMatch (url request);
                   ConsoleLog "[ServiceWorker] Fetching:" (Some (url request));
                   NetFetch (url request);
                   ConsoleError "[ServiceWorker] Fetch failed:" e ]
                 ++ if String.eqb (mode request) "navigate"
                    then [ CachesMatch (resolveURL env "./index.html") ]
                    else [] |}).
Proof.
  intros [Hm Ho]%eligible_split Hmiss Hnet.
  unfold_promise. rewrite Hm, Ho. simpl. rewrite Hmiss. simpl. rewrite Hnet.
  by destruct (String.eqb (mode request) "navigate").
Qed.

End Fetch.

(** ** Cache storage *)

Section Storage.
Implicit Types (s : CacheStorage) (name key : string) (f g : Cache -> Cache).

Lemma has_cache_app name s s' :
  has_cache name (s ++ s') = has_cache name s || has_cache name s'.
Proof. apply existsb_app. Qed.

Lemma has_cache_ensure name s : has_cache name (ensure_cache name s) = true.
Proof.
  unfold ensure_cache. destruct (has_cache name s) eqn:E; [done |].
  rewrite has_cache_app, E. simpl. by rewrite String.eqb_refl.
Qed.

Lemma has_cache_update name name' f s :
  has_cache name (update_cache name' f s) = has_cache name s.
Proof.
  induction s as [| [n c] s IH]; [done |]. simpl.
  destruct (String.eqb n name'); simpl; [done |]. by f_equal.
Qed.

Lemma ensure_cache_present name s :
  has_cache name s = true -> ensure_cache name s = s.
Proof. unfold ensure_cache. by intros ->. Qed.

Lemma update_cache_compose name f g s :
  update_cache name f (update_cache name g s) = update_cache name (f ∘ g) s.
Proof.
  induction s as [| [n c] s IH]; [done |]. simpl.
  destruct (String.eqb n name) eqn:E; simpl; rewrite E; [done |]. by rewrite IH.
Qed.

Lemma update_cache_ext name f g s :
  (forall c, f c = g c) -> update_cache name f s = update_cache name g s.
Proof.
  intros Hfg. induction s as [| [n c] s IH]; [done |]. simpl.
  destruct (String.eqb n name); [by rewrite Hfg | by rewrite IH].
Qed.

Lemma get_cache_update name f s :
  get_cache name (update_cache name f s) = f <$> get_cache name s.
Proof.
  induction s as [| [n c] s IH]; [done |]. simpl.
  destruct (String.eqb n name) eqn:E; simpl; rewrite E; [done |]. by rewrite IH.
Qed.

Lemma get_cache_is_Some name s :
  has_cache name s = true -> is_Some (get_cache name s).
Proof.
  induction s as [| [n c] s IH]; [done |]. simpl.
  destruct (String.eqb n name); simpl; eauto.
Qed.

(** Once a response is put under a key that no cache had, [caches.match]
    finds that response. *)
Lemma storage_match_update name key r s :
  storage_match key s = None ->
  has_cache name s = true ->
  storage_match key (update_cache name (fun c => <[key := r]> c) s) = Some r.
Proof.
  induction s as [| [n c] s IH]; [done |]. simpl.
  destruct (c !! key) eqn:Hc; [done |]. intros Hmiss.
  destruct (String.eqb n name) eqn:E; simpl.
  - intros _. by rewrite lookup_insert_eq.
  - intros Hhas. rewrite Hc. by apply IH.
Qed.

Lemma storage_match_ensure key name s :
  storage_match key (ensure_cache name s) = storage_match key s.
Proof.
  unfold ensure_cache. destruct (has_cache name s); [done |].
  induction s as [| [n c] s IH]; [done |]. simpl.
  destruct (c !! key); [done |]. apply IH.
Qed.

Lemma storage_match_primed name key r s :
  storage_match key s = None ->
  storage_match key
    (update_cache name (fun c => <[key := r]> c) (ensure_cache name s)) = Some r.
Proof.
  intros Hmiss. apply storage_match_update.
  - by rewrite storage_match_ensure.
  - apply has_cache_ensure.
Qed.

End Storage.

(** *** [all_stored_ok] is kept by every storage operation *)

Section StoredOk.
Implicit Types (s : CacheStorage) (name key : string).

Lemma all_stored_ok_nil : all_stored_ok [].
Proof. intros name c key r H. by apply elem_of_nil in H. Qed.

Lemma all_stored_ok_ensure name s :
  all_stored_ok s -> all_stored_ok (ensure_cache name s).
Proof.
  unfold ensure_cache. destruct (has_cache name s); [done |].
  intros H n c key r [Hin | Hin]%elem_of_app Hc; [by eapply H |].
  apply list_elem_of_singleton in Hin. injection Hin as -> ->.
  by rewrite lookup_empty in Hc.
Qed.

Lemma all_stored_ok_remove name s :
  all_stored_ok s -> all_stored_ok (remove_cache name s).
Proof.
  intros H n c key r Hin Hc. eapply H; [| done].
  unfold remove_cache in Hin. apply list_elem_of_In in Hin.
  apply filter_In in Hin as [Hin _]. by apply list_elem_of_In.
Qed.

Lemma all_stored_ok_update name (f : Cache -> Cache) s :
  (forall c, (forall key r, c !! key = Some r -> ok r = true) ->
             forall key r, f c !! key = Some r -> ok r = true) ->
  all_stored_ok s -> all_stored_ok (update_cache name f s).
Proof.
  intros Hf. induction s as [| [n c] s IH]; [done |]. intros H. simpl.
  assert (all_stored_ok s) as Hs.
  { intros n' c' key r Hin. apply (H n' c' key r). by right. }
  destruct (String.eqb n name).
  - intros n' c' key r [Heq | Hin]%elem_of_cons Hc.
    + injection Heq as -> ->. eapply Hf; [| done].
      intros key' r'. apply (H n c). by left.
    + by eapply Hs.
  - intros n' c' key r [Heq | Hin]%elem_of_cons Hc.
    + injection Heq as -> ->. eapply (H n c); [by left | done].
    + by eapply (IH Hs).
Qed.

End StoredOk.

(** ** Install *)

Section Install.
Context (env : Env).

Lemma fetch_each_run (urls : list string) (w : World) :
  foldr (fun u k => emit (NetFetch (resolveURL env u)) ;; k) (resolve tt) urls w =
    (Fulfilled tt,
     {| storage := storage w;
        trace := trace w ++ map (fun u => NetFetch (resolveURL env u)) urls |}).
Proof.
  revert w. induction urls as [| u urls IH]; intros w; simpl.
  - unfold resolve. rewrite app_nil_r. by destruct w.
  - unfold then_, emit at 1. rewrite IH. simpl. by rewrite <- app_assoc.
Qed.

Lemma cache_addAll_run cache urls w :
  cache_addAll env cache urls w =
    let tr := trace w ++ CacheAddAll cache
                :: map (fun u => NetFetch (resolveURL env u)) urls in
    match addAll_result env urls with
    | inl e => (Rejected e, {| storage := storage w; trace := tr |})
    | inr entries =>
        (Fulfilled tt,
         {| storage := update_cache cache (fun c => list_to_map entries ∪ c) (storage w);
            trace := tr |})
    end.
Proof.
  unfold cache_addAll, addAll_result.
  unfold then_ at 1. unfold emit at 1. unfold then_ at 1.
  rewrite fetch_each_run. simpl. rewrite <- app_assoc. simpl.
  destruct (addAll_collect env urls) as [entries |]; [| done].
  by destruct (forallb _ entries).
Qed.

Lemma on_install_run s :
  run (SW.on_install env) s =
    match addAll_result env SW.CACHE_URLS with
    | inl e =>
        (Fulfilled tt,
         {| storage := ensure_cache SW.CACHE_NAME s;
            trace := install_trace env [ ConsoleError "[ServiceWorker] Cache failed:" e ] |})
    | inr entries =>
        (Fulfilled tt,
         {| storage := update_cache SW.CACHE_NAME (fun c => list_to_map entries ∪ c)
                         (ensure_cache SW.CACHE_NAME s);
            trace := install_trace env [ ConsoleLog "[ServiceWorker] Skip waiting" None;
                                     SkipWaiting ] |})
    end.
Proof.
  unfold run, fresh, SW.on_install, SW.install_promise, install_trace.
  unfold catch_, then_, caches_open, console_log, console_error, skipWaiting,
    emit, with_storage.
  cbn -[cache_addAll SW.CACHE_URLS SW.CACHE_NAME].
  rewrite cache_addAll_run.
  cbn -[SW.CACHE_URLS SW.CACHE_NAME].
  destruct (addAll_result env SW.CACHE_URLS) as [e | entries];
    cbn -[SW.CACHE_URLS SW.CACHE_NAME]; [done |].
  by rewrite <- app_assoc.
Qed.

Lemma addAll_collect_keys urls entries :
  addAll_collect env urls = Some entries ->
  entries.*1 = map (resolveURL env) urls.
Proof.
  revert entries. induction urls as [| u urls IH]; intros entries; simpl.
  - by intros [= <-].
  - destruct (addAll_accepts _) as [r |]; [| done].
    destruct (addAll_collect env urls) as [l |]; [| done].
    intros [= <-]. simpl. f_equal. by apply IH.
Qed.

Lemma addAll_collect_ok urls entries key r :
  addAll_collect env urls = Some entries ->
  (key, r) ∈ entries -> ok r = true.
Proof.
  revert entries. induction urls as [| u urls IH]; intros entries; simpl.
  - intros [= <-] H. by apply elem_of_nil in H.
  - destruct (addAll_accepts _) as [r' |] eqn:Hacc; [| done].
    destruct (addAll_collect env urls) as [l |]; [| done].
    intros [= <-] [Heq | Hin]%elem_of_cons; [| by eapply IH].
    injection Heq as -> ->.
    unfold addAll_accepts in Hacc.
    destruct (network env _) as [[resp |] | e]; [| done | done].
    destruct (ok resp) eqn:Hok; [| done]. simpl in Hacc.
    destruct (negb _ && negb _); [| done]. by injection Hacc as <-.
Qed.

Lemma addAll_result_inr urls entries :
  addAll_result env urls = inr entries -> addAll_collect env urls = Some entries.
Proof.
  unfold addAll_result. destruct (addAll_collect env urls) as [l |]; [| done].
  destruct (forallb _ l); [| done]. by intros [= <-].
Qed.

End Install.

Lemma install_never_rejects env s : fst (run (SW.on_install env) s) = Fulfilled tt.
Proof. rewrite on_install_run. by destruct (addAll_result env SW.CACHE_URLS). Qed.

Lemma SkipWaiting_not_fetched env (urls : list string) :
  SkipWaiting ∉ map (fun u => NetFetch (resolveURL env u)) urls.
Proof.
  intros (u & Hu & _)%list_elem_of_fmap. discriminate.
Qed.

Lemma install_skipWaiting_iff env s :
  SkipWaiting ∈ trace (snd (run (SW.on_install env) s)) <->
  exists entries, addAll_result env SW.CACHE_URLS = inr entries.
Proof.
  rewrite on_install_run.
  destruct (addAll_result env SW.CACHE_URLS) as [e | entries]; simpl.
  - split; [| by intros [? ?]].
    unfold install_trace. intros H. exfalso.
    do 4 (apply elem_of_cons in H as [H | H]; [discriminate |]).
    apply elem_of_app in H as [H | H].
    + by apply SkipWaiting_not_fetched in H.
    + apply elem_of_cons in H as [H | H]; [discriminate |]. by apply elem_of_nil in H.
  - split; [by eauto |]. intros _. unfold install_trace.
    rewrite !elem_of_app. right. right. set_solver.
Qed.

Lemma addAll_collect_fetched env urls entries key r :
  addAll_collect env urls = Some entries ->
  (key, r) ∈ entries ->
  network env (GET key) = Fulfilled (Some r).
Proof.
  revert entries. induction urls as [| u urls IH]; intros entries; simpl.
  - intros [= <-] H. by apply elem_of_nil in H.
  - destruct (addAll_accepts _) as [r' |] eqn:Hacc; [| done].
    destruct (addAll_collect env urls) as [l |]; [| done].
    intros [= <-] [Heq | Hin]%elem_of_cons; [| by eapply IH].
    injection Heq as -> ->.
    unfold addAll_accepts in Hacc.
    destruct (network env _) as [[resp |] | e]; [| done | done].
    destruct (_ && _); [| done]. by injection Hacc as <-.
Qed.

Lemma addAll_entries_lookup env urls entries u :
  addAll_collect env urls = Some entries ->
  u ∈ urls ->
  exists r, (list_to_map entries : Cache) !! resolveURL env u = Some r
            /\ network env (GET (resolveURL env u)) = Fulfilled (Some r).
Proof.
  intros Hc Hu.
  destruct ((list_to_map entries : Cache) !! resolveURL env u) as [r |] eqn:Hl.
  - exists r. split; [done |].
    eapply addAll_collect_fetched; [done |]. by apply elem_of_list_to_map_2.
  - apply not_elem_of_list_to_map_2 in Hl. exfalso. apply Hl.
    rewrite (addAll_collect_keys _ _ _ Hc). by apply list_elem_of_fmap_2.
Qed.

(** ** Activate *)

Section Activate.
Context (env : Env).

Lemma delete_step_run (n : string) (w : World) :
  (console_log "[ServiceWorker] Removing old cache:" (Some n) ;;
   caches_delete env n) w =
    (if delete_ok env n then Fulfilled (has_cache n (storage w))
     else Rejected (DOMException "UnknownError"),
     {| storage := if delete_ok env n then remove_cache n (storage w)
                   else storage w;
        trace := trace w ++ [ ConsoleLog "[ServiceWorker] Removing old cache:" (Some n);
                              CachesDelete n ] |}).
Proof.
  unfold then_, console_log, caches_delete, then_, emit, with_storage. simpl.
  rewrite <- app_assoc. by destruct (delete_ok env n).
Qed.

Lemma deletes_run (names : list string) (w : World) :
  exists r,
    Promise_all
      (map (fun cacheName =>
              console_log "[ServiceWorker] Removing old cache:" (Some cacheName) ;;
              caches_delete env cacheName) names) w =
      (r, {| storage := delete_all env names (storage w);
             trace := trace w ++ delete_trace names |})
    /\ if forallb (delete_ok env) names
       then exists l, r = Fulfilled l
       else r = Rejected (DOMException "UnknownError").
Proof.
  revert w. induction names as [| n names IH]; intros w.
  - exists (Fulfilled []). simpl. rewrite app_nil_r. destruct w. eauto.
  - cbn [map Promise_all]. rewrite delete_step_run.
    match goal with
    | |- context [Promise_all _ ?w1] => destruct (IH w1) as (rs & -> & Hrs)
    end.
    cbn [storage trace delete_all foldl delete_trace flat_map forallb].
    rewrite <- app_assoc. simpl.
    eexists. split; [done |].
    destruct (delete_ok env n); simpl; [| done].
    destruct (forallb (delete_ok env) names); [| by rewrite Hrs].
    destruct Hrs as [l ->]. eauto.
Qed.

Lemma on_activate_run s :
  run (SW.on_activate env) s =
    if forallb (delete_ok env) (stale_names s)
    then (Fulfilled tt,
          {| storage := delete_all env (stale_names s) s;
             trace := [ ConsoleLog "[ServiceWorker] Activate" None; CachesKeys ]
                      ++ delete_trace (stale_names s)
                      ++ [ ConsoleLog "[ServiceWorker] Claiming clients" None;
                           ClientsClaim ] |})
    else (Rejected (DOMException "UnknownError"),
          {| storage := delete_all env (stale_names s) s;
             trace := [ ConsoleLog "[ServiceWorker] Activate" None; CachesKeys ]
                      ++ delete_trace (stale_names s) |}).
Proof.
  unfold run, fresh, SW.on_activate, SW.activate_promise.
  unfold then_ at 1, console_log at 1, emit at 1.
  cbn -[Promise_all SW.CACHE_NAME List.filter].
  unfold then_ at 1, then_ at 1, caches_keys, then_ at 1, emit at 1.
  cbn -[Promise_all SW.CACHE_NAME List.filter].
  fold (stale_names s).
  destruct (deletes_run (stale_names s)
              {| storage := s;
                 trace := [ ConsoleLog "[ServiceWorker] Activate" None; CachesKeys ] |})
    as (r & -> & Hr).
  destruct (forallb (delete_ok env) (stale_names s)).
  - destruct Hr as [l ->]. unfold then_, console_log, clients_claim, emit. simpl.
    by rewrite <- app_assoc.
  - by rewrite Hr.
Qed.

Lemma has_cache_remove name n s :
  has_cache name (remove_cache n s) =
    has_cache name s && negb (String.eqb n name).
Proof.
  unfold has_cache, remove_cache.
  induction s as [| [m c] s IH]; [done |]. simpl.
  destruct (String.eqb m n) eqn:Em; simpl; rewrite IH.
  - apply String.eqb_eq in Em as ->.
    destruct (String.eqb n name); simpl; [by rewrite andb_false_r | done].
  - destruct (String.eqb m name) eqn:En; simpl; [| done].
    apply String.eqb_eq in En as ->. by rewrite String.eqb_sym, Em.
Qed.

Lemma has_cache_delete_all name names s :
  forallb (delete_ok env) names = true ->
  has_cache name (delete_all env names s) =
    has_cache name s && negb (existsb (fun n => String.eqb n name) names).
Proof.
  revert s. induction names as [| n names IH]; intros s; simpl.
  - by rewrite andb_true_r.
  - intros [Hn Hns]%andb_true_iff. unfold delete_all in *. simpl. rewrite Hn.
    rewrite IH by done. rewrite has_cache_remove.
    rewrite negb_orb. by rewrite andb_assoc.
Qed.

Lemma has_cache_stale name s :
  has_cache name s = true -> name <> SW.CACHE_NAME ->
  existsb (fun n => String.eqb n name) (stale_names s) = true.
Proof.
  intros Hhas Hne. apply existsb_exists. exists name.
  split; [| apply String.eqb_refl].
  unfold stale_names. apply filter_In. split.
  - unfold has_cache in Hhas. apply existsb_exists in Hhas as ([n c] & Hin & Heq).
    apply String.eqb_eq in Heq. simpl in Heq. subst n.
    apply in_map_iff. by exists (name, c).
  - apply negb_true_iff. by apply String.eqb_neq.
Qed.

Lemma ClientsClaim_not_in_delete_trace names :
  ClientsClaim ∉ delete_trace names.
Proof.
  induction names as [| n names IH]; simpl.
  - apply not_elem_of_nil.
  - intros [H | [H | H]%elem_of_cons]%elem_of_cons; [discriminate .. | done].
Qed.

Lemma CachesDelete_in_delete_trace name names :
  In name names -> CachesDelete name ∈ delete_trace names.
Proof.
  induction names as [| n names IH]; simpl; [done |].
  intros [-> | Hin].
  - right. left.
  - right. right. by apply IH.
Qed.

Lemma all_stored_ok_delete_all names s :
  all_stored_ok s -> all_stored_ok (delete_all env names s).
Proof.
  revert s. induction names as [| n names IH]; intros s Hs; [done |]. simpl.
  apply IH. destruct (delete_ok env n); [by apply all_stored_ok_remove | done].
Qed.

End Activate.

(** ** Stored responses *)

Lemma ok_of_200 (r : Response) : status r = 200%N -> ok r = true.
Proof. unfold ok. by intros ->. Qed.

Lemma on_install_stored_ok env s :
  all_stored_ok s -> all_stored_ok (storage (snd (run (SW.on_install env) s))).
Proof.
  intros Hs. rewrite on_install_run.
  destruct (addAll_result env SW.CACHE_URLS) as [e | entries] eqn:He; simpl.
  - by apply all_stored_ok_ensure.
  - apply all_stored_ok_update; [| by apply all_stored_ok_ensure].
    intros c Hc key r [Hl | [_ Hr]]%lookup_union_Some_raw; [| by eapply Hc].
    eapply addAll_collect_ok; [by apply addAll_result_inr |].
    by apply elem_of_list_to_map_2.
Qed.

Lemma on_activate_stored_ok env s :
  all_stored_ok s -> all_stored_ok (storage (snd (run (SW.on_activate env) s))).
Proof.
  intros Hs. rewrite on_activate_run.
  destruct (forallb _ _); simpl; by apply all_stored_ok_delete_all.
Qed.

Lemma on_fetch_stored_ok env request s :
  all_stored_ok s ->
  all_stored_ok (storage (snd (SW.on_fetch env request (fresh s)))).
Proof.
  intros Hs.
  destruct (eligible env request) eqn:Hel; [| by rewrite on_fetch_skips].
  destruct (storage_match (url request) s) as [r |] eqn:Hm;
    [by erewrite on_fetch_hit |].
  destruct (network env request) as [[nr |] | e] eqn:Hn.
  - destruct (N.eq_dec (status nr) 200) as [Hst | Hst].
    + erewrite on_fetch_miss_success by done. simpl.
      destruct (put_ok env (url request)); [| by apply all_stored_ok_ensure].
      apply all_stored_ok_update; [| by apply all_stored_ok_ensure].
      intros c Hc key r. rewrite lookup_insert.
      case_decide; [| by apply Hc]. intros [= <-]. by apply ok_of_200.
    + erewrite on_fetch_miss_unsuccessful; [done .. |]. right. eauto.
  - erewrite on_fetch_miss_unsuccessful; [done .. |]. by left.
  - by erewrite on_fetch_miss_rejected.
Qed.

Lemma reachable_stored_ok s : Lifecycle.reachable s -> all_stored_ok s.
Proof.
  unfold Lifecycle.reachable. intros H.
  eapply (rtc_ind_r (fun s' => all_stored_ok s'));
    [apply all_stored_ok_nil | | exact H].
  intros s1 s2 _ Hstep IH. destruct Hstep.
  - by apply on_install_stored_ok.
  - by apply on_activate_stored_ok.
  - by apply on_fetch_stored_ok.
Qed.

(** * The specification's claims *)

(** ** Install *)

(** Both workers precache the same thirteen URLs. *)
Lemma CACHE_URLS_length : length SW.CACHE_URLS = 13.
Proof. reflexivity. Qed.

Lemma precacheManifest_urls : map fst Workbox.precacheManifest = SW.CACHE_URLS.
Proof. reflexivity. Qed.

(** The install chain ends in a [catch] that logs and returns, so the
    promise given to [event.waitUntil] fulfils whatever happens. *)
Lemma install_phase_installed env s :
  fst (Lifecycle.install_phase env s) = Lifecycle.installed.
Proof.
  unfold Lifecycle.install_phase.
  pose proof (install_never_rejects env s) as H.
  destruct (run (SW.on_install env) s) as [r w]. simpl in *. by rewrite H.
Qed.

(** C1 (the code departs from the claim): with one manifest entry answering
    404, [cache.addAll] rejects and the failure is logged, but the promise
    handed to [event.waitUntil] still fulfils.  The runtime therefore takes
    the worker as installed, not as failed; [skipWaiting] was not called,
    so an earlier worker keeps its clients, yet with no earlier worker in
    control this worker activates over an empty cache. *)
Theorem install_failure_swallowed :
  let env := Sample.env_with Sample.one_missing in
  let w := snd (Lifecycle.install_phase env []) in
  addAll_result env SW.CACHE_URLS = inl (TypeError "Failed to fetch")
  /\ fst (run (SW.on_install env) []) = Fulfilled tt
  /\ fst (Lifecycle.install_phase env []) = Lifecycle.installed
  /\ ConsoleError "[ServiceWorker] Cache failed:" (TypeError "Failed to fetch")
       ∈ trace w
  /\ (SkipWaiting ∉ trace w)
  /\ storage w = [ (SW.CACHE_NAME, ∅) ]
  /\ Lifecycle.activates true Lifecycle.installed w = false
  /\ Lifecycle.activates false Lifecycle.installed w = true.
Proof.
  repeat split; try (vm_compute; reflexivity).
  - apply (bool_decide_unpack _). vm_compute. exact I.
  - apply (bool_decide_eq_false_1 _). vm_compute. reflexivity.
Qed.

(** C7: after an install that reached its success continuation (the one
    that calls [skipWaiting]), the current cache answers a lookup by the URL
    of every manifest entry, with the response the network gave for it. *)
Theorem precache_retrievable env s u :
  SkipWaiting ∈ trace (snd (run (SW.on_install env) s)) ->
  u ∈ SW.CACHE_URLS ->
  exists (c : Cache) r,
    get_cache SW.CACHE_NAME (storage (snd (run (SW.on_install env) s))) = Some c
    /\ c !! resolveURL env u = Some r
    /\ network env (GET (resolveURL env u)) = Fulfilled (Some r).
Proof.
  intros [entries He]%install_skipWaiting_iff Hu.
  rewrite on_install_run, He. simpl.
  rewrite get_cache_update.
  destruct (get_cache_is_Some SW.CACHE_NAME (ensure_cache SW.CACHE_NAME s))
    as [c0 Hc0]; [apply has_cache_ensure |].
  rewrite Hc0. simpl.
  destruct (addAll_entries_lookup env SW.CACHE_URLS entries u) as (r & Hl & Hn);
    [by apply addAll_result_inr | done |].
  exists (list_to_map entries ∪ c0), r. split; [done |]. split; [| done].
  by apply lookup_union_Some_l.
Qed.

Lemma precache_retrievable_witness :
  exists (c : Cache) r,
    get_cache SW.CACHE_NAME
      (storage (snd (run (SW.on_install (Sample.env_with Sample.online)) [])))
      = Some c
    /\ c !! "https://pwa.example/app/index.html" = Some r
    /\ Sample.online (GET "https://pwa.example/app/index.html") = Fulfilled (Some r).
Proof.
  apply (precache_retrievable (Sample.env_with Sample.online) [] "./index.html").
  - apply (bool_decide_unpack _). vm_compute. exact I.
  - apply (bool_decide_unpack _). vm_compute. exact I.
Defined.

(** C9: with the same surroundings, a second install leaves the cache
    storage exactly as the first one left it. *)
Theorem install_idempotent env s :
  storage (snd (run (SW.on_install env)
                  (storage (snd (run (SW.on_install env) s))))) =
  storage (snd (run (SW.on_install env) s)).
Proof.
  rewrite !on_install_run.
  destruct (addAll_result env SW.CACHE_URLS) as [e | entries]; simpl.
  - apply ensure_cache_present, has_cache_ensure.
  - rewrite ensure_cache_present
      by (rewrite has_cache_update; apply has_cache_ensure).
    rewrite update_cache_compose. apply update_cache_ext. intros c. simpl.
    by rewrite (assoc_L (∪)), (idemp_L (∪)).
Qed.

(** ** Activate *)

(** C3: when the activation promise fulfils, no cache other than the
    current one is left, and every deletion of a stale cache comes in the
    trace before the one [clients.claim()], which is the last effect. *)
Theorem activate_cleans_before_claim env s w' :
  run (SW.on_activate env) s = (Fulfilled tt, w') ->
  (forall name, name <> SW.CACHE_NAME -> has_cache name (storage w') = false)
  /\ exists cleanup,
       trace w' = cleanup ++ [ ConsoleLog "[ServiceWorker] Claiming clients" None;
                               ClientsClaim ]
       /\ (ClientsClaim ∉ cleanup)
       /\ forall name, has_cache name s = true -> name <> SW.CACHE_NAME ->
                       CachesDelete name ∈ cleanup.
Proof.
  rewrite on_activate_run.
  destruct (forallb (delete_ok env) (stale_names s)) eqn:Hok; [| done].
  intros [= <-]. simpl. split.
  - intros name Hne. rewrite has_cache_delete_all by done.
    destruct (has_cache name s) eqn:Hhas; [| done].
    by rewrite has_cache_stale.
  - exists ([ ConsoleLog "[ServiceWorker] Activate" None; CachesKeys ]
            ++ delete_trace (stale_names s)).
    split; [by rewrite <- app_assoc |]. split.
    + intros [H | [H | H]%elem_of_cons]%elem_of_cons; [discriminate .. |].
      by apply ClientsClaim_not_in_delete_trace in H.
    + intros name Hhas Hne. right. right.
      apply CachesDelete_in_delete_trace.
      apply has_cache_stale in Hhas; [| done].
      apply existsb_exists in Hhas as (n & Hin & ->%String.eqb_eq). done.
Qed.

Lemma activate_cleans_before_claim_witness :
  has_cache "pwa-getstarted-v0"
    (storage (snd (run (SW.on_activate (Sample.env_with Sample.online))
                     Sample.old_storage))) = false.
Proof.
  refine (proj1 (activate_cleans_before_claim
                   (Sample.env_with Sample.online) Sample.old_storage _ _)
                "pwa-getstarted-v0" _).
  - vm_compute. reflexivity.
  - discriminate.
Defined.

(** ** Fetch *)




(** C4 (the code departs from the claim): the cross-origin guard is a
    string-prefix test.  A GET request to another port of the same host has
    a different origin, yet its URL starts with the worker's origin; the
    listener answers it, reads the caches for it and stores the response. *)
Theorem port_sibling_request_answered :
  let env := Sample.env_localhost in
  let request := Sample.api_request in
  let result := SW.on_fetch env request (fresh []) in
  url_origin (url request) = "http://localhost:8080"
  /\ url_origin (url request) <> origin env
  /\ fst result
     = Some (Fulfilled (Some (Sample.page "fresh http://localhost:8080/api/items")))
  /\ trace (snd result)
     = [ CachesMatch "http://localhost:8080/api/items";
         ConsoleLog "[ServiceWorker] Fetching:" (Some "http://localhost:8080/api/items");
         NetFetch "http://localhost:8080/api/items";
         CachesOpen SW.CACHE_NAME;
         CachePut SW.CACHE_NAME "http://localhost:8080/api/items" ]
  /\ storage_match "http://localhost:8080/api/items" (storage (snd result))
     = Some (Sample.page "fresh http://localhost:8080/api/items").
Proof.
  repeat split; try (vm_compute; reflexivity).
  vm_compute. discriminate.
Qed.

(** C5: a network response that is undefined or whose status is not 200 is
    handed to the caller as it came and nothing is written to any cache;
    and in every storage the worker can reach from an empty one, all stored
    responses have a successful status. *)
Theorem unsuccessful_response_not_stored :
  (forall env request s nr,
     eligible env request = true ->
     storage_match (url request) s = None ->
     network env request = Fulfilled nr ->
     (nr = None \/ exists r, nr = Some r /\ status r <> 200%N) ->
     fst (SW.on_fetch env request (fresh s)) = Some (Fulfilled nr)
     /\ storage (snd (SW.on_fetch env request (fresh s))) = s
     /\ List.filter is_CacheWrite (trace (snd (SW.on_fetch env request (fresh s)))) = [])
  /\ (forall s, Lifecycle.reachable s -> all_stored_ok s).
Proof.
  split.
  - intros env request s nr Hel Hmiss Hnet Hbad.
    by erewrite on_fetch_miss_unsuccessful.
  - apply reachable_stored_ok.
Qed.

Lemma unsuccessful_response_not_stored_witness :
  (let result := SW.on_fetch (Sample.env_with Sample.not_found)
                   (Sample.navigate Sample.about_url) (fresh []) in
   fst result
     = Some (Fulfilled (Some {| rtype := basic; status := 404; body := "Not Found" |}))
   /\ storage (snd result) = []
   /\ List.filter is_CacheWrite (trace (snd result)) = [])
  /\ all_stored_ok
       (storage (snd (run (SW.on_install (Sample.env_with Sample.online)) []))).
Proof.
  split.
  - apply (proj1 unsuccessful_response_not_stored
             (Sample.env_with Sample.not_found)
             (Sample.navigate Sample.about_url) []).
    + vm_compute. reflexivity.
    + vm_compute. reflexivity.
    + vm_compute. reflexivity.
    + right. eexists. split; [reflexivity | discriminate].
  - apply (proj2 unsuccessful_response_not_stored).
    apply rtc_once. apply Lifecycle.step_install.
Defined.

(** C6, as stated, fails for the Workbox worker: for a request that is not
    a navigation its catch handler does not raise the failure again, it
    fulfils with [Response.error()]. *)
Lemma workbox_catch_fulfils :
  let env := Sample.env_with Sample.offline in
  let request := Sample.image Sample.icon_url in
  let matchPrecache := fun u => caches_match (resolveURL env u) in
  network env request = Rejected (TypeError "Failed to fetch")
  /\ fst (Workbox.catchHandler matchPrecache request (fresh []))
     = Fulfilled (Some Response_error)
  /\ fst (Workbox.catchHandler matchPrecache request (fresh []))
     <> Rejected (TypeError "Failed to fetch").
Proof.
  repeat split; try (vm_compute; reflexivity).
  vm_compute. discriminate.
Qed.

(** C6, amended: when the network fetch of an uncached eligible request
    rejects, the hand-written worker answers a navigation with the cached
    fallback document when there is one, and for any other request rejects
    with the very same error.  The Workbox catch handler answers a
    navigation with whatever the precache holds for the fallback document,
    and any other request with [Response.error()]. *)
Theorem fetch_failure_fallback env request s e
    (matchPrecache : string -> Promise (option Response)) :
  eligible env request = true ->
  storage_match (url request) s = None ->
  network env request = Rejected e ->
  (mode request = "navigate" ->
     (forall r, storage_match (resolveURL env "./index.html") s = Some r ->
        fst (SW.on_fetch env request (fresh s)) = Some (Fulfilled (Some r)))
     /\ Workbox.catchHandler matchPrecache request = matchPrecache "./index.html")
  /\ (mode request <> "navigate" ->
        fst (SW.on_fetch env request (fresh s)) = Some (Rejected e)
        /\ Workbox.catchHandler matchPrecache request
           = resolve (Some Response_error)).
Proof.
  intros Hel Hmiss Hnet. split.
  - intros Hmode%String.eqb_eq. split.
    + intros r Hr. erewrite on_fetch_miss_rejected by done. simpl.
      by rewrite Hmode, Hr.
    + unfold Workbox.catchHandler. by rewrite Hmode.
  - intros Hmode%String.eqb_neq. split.
    + erewrite on_fetch_miss_rejected by done. simpl. by rewrite Hmode.
    + unfold Workbox.catchHandler. by rewrite Hmode.
Qed.

Lemma fetch_failure_fallback_witness :
  fst (SW.on_fetch (Sample.env_with Sample.offline)
         (Sample.image Sample.icon_url) (fresh []))
  = Some (Rejected (TypeError "Failed to fetch")).
Proof.
  refine (proj1 (proj2 (fetch_failure_fallback (Sample.env_with Sample.offline)
                          (Sample.image Sample.icon_url) []
                          (TypeError "Failed to fetch")
                          (fun _ => resolve None) _ _ _) _)).
  - vm_compute. reflexivity.
  - vm_compute. reflexivity.
  - vm_compute. reflexivity.
  - discriminate.
Defined.

(** C8: once a first fetch of an eligible URL has stored the network's 200
    response, a second fetch of that URL is answered with the stored
    response and makes no network call, whatever the network would say. *)
Theorem primed_cache_suppresses_network env env' request s nr :
  eligible env request = true ->
  eligible env' request = true ->
  storage_match (url request) s = None ->
  network env request = Fulfilled (Some nr) ->
  status nr = 200%N ->
  put_ok env (url request) = true ->
  let primed := storage (snd (SW.on_fetch env request (fresh s))) in
  network_calls (trace (snd (SW.on_fetch env request (fresh s)))) = 1
  /\ fst (SW.on_fetch env' request (fresh primed)) = Some (Fulfilled (Some nr))
  /\ network_calls (trace (snd (SW.on_fetch env' request (fresh primed)))) = 0.
Proof.
  intros Hel Hel' Hmiss Hnet Hst Hput primed.
  assert (storage_match (url request) primed = Some nr) as Hprimed.
  { unfold primed. erewrite on_fetch_miss_success by done. simpl.
    rewrite Hput. by apply storage_match_primed. }
  split; [by erewrite on_fetch_miss_success |].
  by erewrite on_fetch_hit.
Qed.

Lemma primed_cache_suppresses_network_witness :
  let env := Sample.env_with Sample.online in
  let request := Sample.image Sample.icon_url in
  let primed := storage (snd (SW.on_fetch env request (fresh []))) in
  network_calls (trace (snd (SW.on_fetch env request (fresh [])))) = 1
  /\ fst (SW.on_fetch (Sample.env_with Sample.offline) request (fresh primed))
     = Some (Fulfilled (Some (Sample.page
                                "fresh https://pwa.example/app/icons/icon-72.png")))
  /\ network_calls
       (trace (snd (SW.on_fetch (Sample.env_with Sample.offline) request
                      (fresh primed)))) = 0.
Proof.
  apply (primed_cache_suppresses_network
           (Sample.env_with Sample.online) (Sample.env_with Sample.offline)
           (Sample.image Sample.icon_url) []).
  - vm_compute. reflexivity.
  - vm_compute. reflexivity.
  - vm_compute. reflexivity.
  - vm_compute. reflexivity.
  - vm_compute. reflexivity.
  - vm_compute. reflexivity.
Defined.

(** C10: when the network fetch of an uncached navigation request rejects
    and no cache holds the fallback document either, the promise given to
    [event.respondWith] fulfils with [undefined]: the result of the fallback
    lookup is returned unchecked. *)
Theorem navigation_fallback_absent env request s e :
  eligible env request = true ->
  mode request = "navigate" ->
  storage_match (url request) s = None ->
  network env request = Rejected e ->
  storage_match (resolveURL env "./index.html") s = None ->
  SW.on_fetch env request (fresh s) =
    (Some (Fulfilled None),
     {| storage := s;
        trace := [ CachesMatch (url request);
                   ConsoleLog "[ServiceWorker] Fetching:" (Some (url request));
                   NetFetch (url request);
                   ConsoleError "[ServiceWorker] Fetch failed:" e;
                   CachesMatch (resolveURL env "./index.html") ] |}).
Proof.
  intros Hel Hmode%String.eqb_eq Hmiss Hnet Hfallback.
  erewrite on_fetch_miss_rejected by done. by rewrite Hmode, Hfallback.
Qed.

Lemma navigation_fallback_absent_witness :
  fst (SW.on_fetch (Sample.env_with Sample.offline)
         (Sample.navigate Sample.about_url) (fresh []))
  = Some (Fulfilled None).
Proof.
  rewrite (navigation_fallback_absent (Sample.env_with Sample.offline)
             (Sample.navigate Sample.about_url) []
             (TypeError "Failed to fetch")); reflexivity.
Defined.

(** * Further properties *)

(** ** More about cache storage *)

Section StorageFrame.
Implicit Types (s : CacheStorage) (name key : string) (f : Cache -> Cache).

Lemma get_cache_ensure_ne name name' s :
  name <> name' -> get_cache name (ensure_cache name' s) = get_cache name s.
Proof.
  intros Hne. unfold ensure_cache. destruct (has_cache name' s); [done |].
  induction s as [| [n c] s IH]; simpl.
  - apply String.eqb_neq in Hne. by rewrite String.eqb_sym, Hne.
  - by destruct (String.eqb n name).
Qed.

Lemma get_cache_update_ne name name' f s :
  name <> name' -> get_cache name (update_cache name' f s) = get_cache name s.
Proof.
  intros Hne. induction s as [| [n c] s IH]; [done |]. simpl.
  destruct (String.eqb n name') eqn:E; simpl.
  - apply String.eqb_eq in E as ->.
    apply String.eqb_neq in Hne. by rewrite String.eqb_sym, Hne.
  - by rewrite IH.
Qed.

Lemma get_cache_remove_ne name n s :
  name <> n -> get_cache name (remove_cache n s) = get_cache name s.
Proof.
  intros Hne. unfold remove_cache.
  induction s as [| [m c] s IH]; [done |]. simpl.
  destruct (String.eqb m n) eqn:E; simpl.
  - apply String.eqb_eq in E as ->.
    apply String.eqb_neq in Hne. by rewrite String.eqb_sym, Hne.
  - by rewrite IH.
Qed.

Lemma get_cache_delete_all env name names s :
  ~ In name names -> get_cache name (delete_all env names s) = get_cache name s.
Proof.
  revert s. induction names as [| n names IH]; intros s Hnot; [done |].
  unfold delete_all in *. simpl.
  rewrite IH by (intros H; apply Hnot; by right).
  destruct (delete_ok env n); [| done].
  apply get_cache_remove_ne. intros ->. apply Hnot. by left.
Qed.

Lemma stale_names_spec name s :
  In name (stale_names s) <-> has_cache name s = true /\ name <> SW.CACHE_NAME.
Proof.
  unfold stale_names. rewrite filter_In, negb_true_iff, String.eqb_neq.
  split; intros [H1 H2]; (split; [| done]).
  - apply in_map_iff in H1 as ([n c] & <- & Hin).
    unfold has_cache. apply existsb_exists. exists (n, c).
    split; [done |]. apply String.eqb_refl.
  - unfold has_cache in H1. apply existsb_exists in H1 as ([n c] & Hin & Heq).
    apply String.eqb_eq in Heq. simpl in Heq. subst n.
    apply in_map_iff. by exists (name, c).
Qed.



(** A cache found by name answers [caches.match] for each of its keys,
    unless an older cache answers first. *)
Lemma storage_match_of_cache name (c : Cache) key r s :
  get_cache name s = Some c -> c !! key = Some r ->
  is_Some (storage_match key s).
Proof.
  induction s as [| [n c'] s IH]; [done |]. simpl.
  destruct (c' !! key) eqn:Hc'; [by eauto |].
  destruct (String.eqb n name); [| done].
  intros [= ->] Hr. congruence.
Qed.

(** When the storage holds no cache under another name, the cache found
    by name is the one [caches.match] reads. *)
Lemma storage_match_sole name (c : Cache) key r s :
  (forall n, n <> name -> has_cache n s = false) ->
  get_cache name s = Some c -> c !! key = Some r ->
  storage_match key s = Some r.
Proof.
  destruct s as [| [n c'] s]; [done |]. simpl. intros Hsole.
  destruct (String.eqb n name) eqn:E.
  - intros [= ->] ->. done.
  - apply String.eqb_neq in E. specialize (Hsole n E).
    unfold has_cache in Hsole. simpl in Hsole. by rewrite String.eqb_refl in Hsole.
Qed.

End StorageFrame.

(** The standard case split on what the fetch listener meets. *)
Ltac fetch_cases env request s :=
  let Hel := fresh "Hel" in
  let Hm := fresh "Hm" in
  let Hn := fresh "Hn" in
  let Hst := fresh "Hst" in
  destruct (eligible env request) eqn:Hel;
    [ destruct (storage_match (url request) s) as [?r |] eqn:Hm;
      [ rewrite (on_fetch_hit env request s _ Hel Hm)
      | destruct (network env request) as [[?nr |] | ?e] eqn:Hn;
        [ destruct (N.eq_dec (status nr) 200) as [Hst | Hst];
          [ rewrite (on_fetch_miss_success env request s _ Hel Hm Hn Hst)
          | rewrite (on_fetch_miss_unsuccessful env request s _ Hel Hm Hn
                       (or_intror (ex_intro _ nr (conj eq_refl Hst)))) ]
        | rewrite (on_fetch_miss_unsuccessful env request s _ Hel Hm Hn
                     (or_introl eq_refl))
        | rewrite (on_fetch_miss_rejected env request s _ Hel Hm Hn) ] ]
    | rewrite (on_fetch_skips env request (fresh s) Hel) ].

(** ** The fetch listener *)






(** ** The install listener *)

Lemma ConsoleError_not_fetched env msg e (urls : list string) :
  ConsoleError msg e ∉ map (fun u => NetFetch (resolveURL env u)) urls.
Proof. intros (u & Hu & _)%list_elem_of_fmap. discriminate. Qed.

Lemma install_failure_logged_iff env s e :
  ConsoleError "[ServiceWorker] Cache failed:" e
    ∈ trace (snd (run (SW.on_install env) s))
  <-> addAll_result env SW.CACHE_URLS = inl e.
Proof.
  rewrite on_install_run.
  destruct (addAll_result env SW.CACHE_URLS) as [e' | entries]; simpl;
    unfold install_trace.
  - split.
    + intros H.
      do 4 (apply elem_of_cons in H as [H | H]; [discriminate |]).
      apply elem_of_app in H as [H | H];
        [by apply ConsoleError_not_fetched in H |].
      apply list_elem_of_singleton in H. by injection H as ->.
    + intros [= ->]. rewrite !elem_of_app. right. right. set_solver.
  - split; [| done]. intros H. exfalso.
    do 4 (apply elem_of_cons in H as [H | H]; [discriminate |]).
    apply elem_of_app in H as [H | H];
      [by apply ConsoleError_not_fetched in H |].
    apply elem_of_cons in H as [H | H]; [discriminate |].
    apply list_elem_of_singleton in H. discriminate.
Qed.

(** X4: every install either calls [skipWaiting] or logs "Cache failed",
    never both and never neither. *)
Theorem install_skips_waiting_or_logs env s :
  let tr := trace (snd (run (SW.on_install env) s)) in
  (SkipWaiting ∈ tr
   /\ forall e, ConsoleError "[ServiceWorker] Cache failed:" e ∉ tr)
  \/ ((SkipWaiting ∉ tr)
      /\ exists e, ConsoleError "[ServiceWorker] Cache failed:" e ∈ tr).
Proof.
  simpl. destruct (addAll_result env SW.CACHE_URLS) as [e | entries] eqn:He.
  - right. split.
    + intros [entries He']%install_skipWaiting_iff. congruence.
    + exists e. by apply install_failure_logged_iff.
  - left. split.
    + apply install_skipWaiting_iff. eauto.
    + intros e He'%install_failure_logged_iff. congruence.
Qed.

Lemma install_skips_waiting_or_logs_witness :
  let tr := trace (snd (run (SW.on_install (Sample.env_with Sample.offline)) [])) in
  (SkipWaiting ∈ tr
   /\ forall e, ConsoleError "[ServiceWorker] Cache failed:" e ∉ tr)
  \/ ((SkipWaiting ∉ tr)
      /\ exists e, ConsoleError "[ServiceWorker] Cache failed:" e ∈ tr).
Proof.
  exact (install_skips_waiting_or_logs (Sample.env_with Sample.offline) []).
Defined.

(** X5: an install that logs "Cache failed" has stored nothing: every
    [caches.match] lookup answers what it answered before the install. *)
Theorem failed_install_changes_no_lookup env s e key :
  ConsoleError "[ServiceWorker] Cache failed:" e
    ∈ trace (snd (run (SW.on_install env) s)) ->
  storage_match key (storage (snd (run (SW.on_install env) s)))
  = storage_match key s.
Proof.
  intros He%install_failure_logged_iff. rewrite on_install_run, He. simpl.
  apply storage_match_ensure.
Qed.

Lemma failed_install_changes_no_lookup_witness :
  storage_match Sample.about_url
    (storage (snd (run (SW.on_install (Sample.env_with Sample.one_missing))
                     Sample.stale_storage)))
  = Some (Sample.page "stale about").
Proof.
  rewrite (failed_install_changes_no_lookup
             (Sample.env_with Sample.one_missing) Sample.stale_storage
             (TypeError "Failed to fetch") Sample.about_url).
  - vm_compute. reflexivity.
  - apply (bool_decide_unpack _). vm_compute. exact I.
Defined.

Lemma get_cache_ensure name s :
  get_cache name (ensure_cache name s)
  = Some (default ∅ (get_cache name s)).
Proof.
  unfold ensure_cache. destruct (has_cache name s) eqn:Hhas.
  - by destruct (get_cache_is_Some name s Hhas) as [c ->].
  - induction s as [| [n c] s IH]; simpl.
    + by rewrite String.eqb_refl.
    + unfold has_cache in Hhas. simpl in Hhas.
      apply orb_false_iff in Hhas as [-> Hs]. by apply IH.
Qed.

(** X6: an install leaves every other cache as it was, makes sure the
    current cache exists, and in the current cache changes no entry whose
    key is not the URL of a manifest entry. *)
Theorem install_frame env s :
  let s' := storage (snd (run (SW.on_install env) s)) in
  (forall name, name <> SW.CACHE_NAME -> get_cache name s' = get_cache name s)
  /\ exists c' : Cache,
       get_cache SW.CACHE_NAME s' = Some c'
       /\ forall key,
            key ∉ map (resolveURL env) SW.CACHE_URLS ->
            c' !! key = default ∅ (get_cache SW.CACHE_NAME s) !! key.
Proof.
  simpl. rewrite on_install_run.
  destruct (addAll_result env SW.CACHE_URLS) as [e | entries] eqn:He; simpl.
  - split; [intros name Hne; by rewrite get_cache_ensure_ne |].
    eexists. split; [apply get_cache_ensure | done].
  - split;
      [intros name Hne; by rewrite get_cache_update_ne, get_cache_ensure_ne |].
    rewrite get_cache_update, get_cache_ensure. simpl.
    eexists. split; [done |]. intros key Hkey.
    apply lookup_union_r, not_elem_of_list_to_map_1.
    by rewrite (addAll_collect_keys _ _ _ (addAll_result_inr _ _ _ He)).
Qed.

Lemma install_frame_witness :
  get_cache "pwa-getstarted-v0"
    (storage (snd (run (SW.on_install (Sample.env_with Sample.online))
                     Sample.old_storage)))
  = get_cache "pwa-getstarted-v0" Sample.old_storage.
Proof.
  apply (proj1 (install_frame (Sample.env_with Sample.online) Sample.old_storage)).
  discriminate.
Defined.

(** ** The activate listener *)

Lemma CACHE_NAME_not_stale s : ~ In SW.CACHE_NAME (stale_names s).
Proof. by intros [_ H]%stale_names_spec. Qed.

(** X7: activation never touches the current cache: whether or not the
    deletions succeed, the cache named [CACHE_NAME] is afterwards what it
    was before (absent if it was absent). *)
Theorem activate_keeps_current_cache env s :
  get_cache SW.CACHE_NAME (storage (snd (run (SW.on_activate env) s)))
  = get_cache SW.CACHE_NAME s.
Proof.
  rewrite on_activate_run.
  destruct (forallb _ _); simpl;
    apply get_cache_delete_all, CACHE_NAME_not_stale.
Qed.

Lemma has_cache_delete_all_gen env name names s :
  has_cache name (delete_all env names s)
  = has_cache name s
    && negb (existsb (fun n => String.eqb n name && delete_ok env n) names).
Proof.
  revert s. induction names as [| n names IH]; intros s; simpl.
  - by rewrite andb_true_r.
  - unfold delete_all in *. simpl. rewrite IH.
    destruct (delete_ok env n); simpl.
    + rewrite has_cache_remove, andb_true_r, negb_orb. by rewrite andb_assoc.
    + by rewrite andb_false_r.
Qed.

Lemma ClientsClaim_not_in_activate_failure names :
  ClientsClaim ∉ [ ConsoleLog "[ServiceWorker] Activate" None; CachesKeys ]
                 ++ delete_trace names.
Proof.
  intros [H | [H | H]%elem_of_cons]%elem_of_cons; [discriminate .. |].
  by apply ClientsClaim_not_in_delete_trace in H.
Qed.

(** X8: when the deletion of one stale cache is refused, the activation
    promise rejects and [clients.claim()] is never called; that cache
    stays, but the deletion of every stale cache has been started, and
    those whose deletion is accepted are gone. *)
Theorem activate_delete_failure env s n :
  has_cache n s = true ->
  n <> SW.CACHE_NAME ->
  delete_ok env n = false ->
  let w' := snd (run (SW.on_activate env) s) in
  fst (run (SW.on_activate env) s) = Rejected (DOMException "UnknownError")
  /\ (ClientsClaim ∉ trace w')
  /\ has_cache n (storage w') = true
  /\ forall m, has_cache m s = true -> m <> SW.CACHE_NAME ->
       CachesDelete m ∈ trace w'
       /\ (delete_ok env m = true -> has_cache m (storage w') = false).
Proof.
  intros Hhas Hne Hfail. simpl. rewrite on_activate_run.
  assert (forallb (delete_ok env) (stale_names s) = false) as ->.
  { apply not_true_is_false. intros Hall.
    rewrite forallb_forall in Hall.
    rewrite (Hall n) in Hfail; [done |]. by apply stale_names_spec. }
  simpl. split; [done |]. split; [apply ClientsClaim_not_in_activate_failure |].
  split.
  - rewrite has_cache_delete_all_gen, Hhas. simpl.
    apply negb_true_iff, not_true_is_false.
    intros (m & _ & [->%String.eqb_eq Hm]%andb_true_iff)%existsb_exists.
    congruence.
  - intros m Hm Hmne. split.
    + right. right. apply CachesDelete_in_delete_trace. by apply stale_names_spec.
    + intros Hok. rewrite has_cache_delete_all_gen, Hm. simpl.
      apply negb_false_iff, existsb_exists. exists m.
      split; [by apply stale_names_spec |].
      apply andb_true_iff. split; [apply String.eqb_refl | done].
Qed.

Lemma activate_delete_failure_witness :
  let w' := snd (run (SW.on_activate Fixture.env_stuck_delete) Sample.old_storage) in
  fst (run (SW.on_activate Fixture.env_stuck_delete) Sample.old_storage)
    = Rejected (DOMException "UnknownError")
  /\ (ClientsClaim ∉ trace w')
  /\ has_cache "pwa-getstarted-v0" (storage w') = true
  /\ forall m, has_cache m Sample.old_storage = true -> m <> SW.CACHE_NAME ->
       CachesDelete m ∈ trace w'
       /\ (delete_ok Fixture.env_stuck_delete m = true ->
           has_cache m (storage w') = false).
Proof.
  apply (activate_delete_failure Fixture.env_stuck_delete Sample.old_storage
           "pwa-getstarted-v0").
  - reflexivity.
  - discriminate.
  - reflexivity.
Defined.

(** ** Across events *)

Lemma only_current_ensure s :
  only_current s -> exists c : Cache, ensure_cache SW.CACHE_NAME s = [ (SW.CACHE_NAME, c) ].
Proof.
  intros [-> | [c ->]]; [by exists ∅ |]. exists c.
  reflexivity.
Qed.

Lemma only_current_update f s :
  only_current s -> only_current (update_cache SW.CACHE_NAME f s).
Proof.
  intros [-> | [c ->]]; [by left |]. right. by exists (f c).
Qed.

Lemma only_current_delete_all env s :
  only_current s -> delete_all env (stale_names s) s = s.
Proof.
  intros [-> | [c ->]]; reflexivity.
Qed.

(** X9: starting from an empty storage, after any sequence of install,
    activate and fetch events the storage is empty or holds exactly one
    cache, named [CACHE_NAME]: the worker creates no other cache. *)
Theorem reachable_only_current s :
  Lifecycle.reachable s -> only_current s.
Proof.
  unfold Lifecycle.reachable. intros H.
  eapply (rtc_ind_r (fun s' => only_current s')); [by left | | exact H].
  intros s1 s2 _ Hstep IH. destruct Hstep as [env s1 | env s1 | env request s1].
  - rewrite on_install_run.
    destruct (only_current_ensure s1 IH) as [c Hc].
    destruct (addAll_result env SW.CACHE_URLS); simpl.
    + right. eauto.
    + apply only_current_update. right. eauto.
  - rewrite on_activate_run.
    destruct (forallb _ _); simpl; by rewrite only_current_delete_all.
  - destruct (only_current_ensure s1 IH) as [c Hc].
    fetch_cases env request s1; simpl; try done.
    destruct (put_ok env (url request)).
    + apply only_current_update. right. eauto.
    + right. eauto.
Qed.

Lemma reachable_only_current_witness :
  only_current (storage (snd (run (SW.on_install (Sample.env_with Sample.online)) []))).
Proof.
  apply reachable_only_current. apply rtc_once. apply Lifecycle.step_install.
Defined.

Lemma installed_cache_lookup env s u :
  SkipWaiting ∈ trace (snd (run (SW.on_install env) s)) ->
  u ∈ SW.CACHE_URLS ->
  exists (c : Cache) r,
    get_cache SW.CACHE_NAME (storage (snd (run (SW.on_install env) s))) = Some c
    /\ c !! resolveURL env u = Some r
    /\ network env (GET (resolveURL env u)) = Fulfilled (Some r).
Proof.
  intros [entries He]%install_skipWaiting_iff Hu.
  rewrite on_install_run, He. simpl.
  rewrite get_cache_update, get_cache_ensure. simpl.
  destruct (addAll_entries_lookup env SW.CACHE_URLS entries u) as (r & Hl & Hn);
    [by apply addAll_result_inr | done |].
  eexists _, r. split; [done |]. split; [| done].
  by apply lookup_union_Some_l.
Qed.

Lemma activate_fulfilled_sole env s w' :
  run (SW.on_activate env) s = (Fulfilled tt, w') ->
  (forall n, n <> SW.CACHE_NAME -> has_cache n (storage w') = false)
  /\ get_cache SW.CACHE_NAME (storage w') = get_cache SW.CACHE_NAME s.
Proof.
  rewrite on_activate_run.
  destruct (forallb (delete_ok env) (stale_names s)) eqn:Hok; [| done].
  intros [= <-]. simpl. split.
  - intros n Hne. rewrite has_cache_delete_all by done.
    destruct (has_cache n s) eqn:Hhas; [| done]. by rewrite has_cache_stale.
  - apply get_cache_delete_all, CACHE_NAME_not_stale.
Qed.

(** X10: after an install that reached [skipWaiting] and an activation
    that fulfilled, an eligible request for the URL of any manifest entry
    is answered, whatever the network does by then, with the response the
    network gave at install time, and without a network call. *)
Theorem precached_served_offline env env' s w2 request u :
  SkipWaiting ∈ trace (snd (run (SW.on_install env) s)) ->
  run (SW.on_activate env) (storage (snd (run (SW.on_install env) s)))
    = (Fulfilled tt, w2) ->
  u ∈ SW.CACHE_URLS ->
  url request = resolveURL env u ->
  eligible env' request = true ->
  exists r,
    network env (GET (resolveURL env u)) = Fulfilled (Some r)
    /\ fst (SW.on_fetch env' request (fresh (storage w2)))
       = Some (Fulfilled (Some r))
    /\ network_calls (trace (snd (SW.on_fetch env' request (fresh (storage w2)))))
       = 0.
Proof.
  intros Hinst Hact Hu Hurl Hel.
  destruct (installed_cache_lookup env s u Hinst Hu) as (c & r & Hc & Hr & Hn).
  destruct (activate_fulfilled_sole _ _ _ Hact) as [Hsole Hcur].
  assert (storage_match (url request) (storage w2) = Some r) as Hhit.
  { rewrite Hurl. eapply storage_match_sole; [done | | done]. by rewrite Hcur. }
  exists r. split; [done |]. by rewrite (on_fetch_hit env' request _ r Hel Hhit).
Qed.

Lemma precached_served_offline_witness :
  let s1 := storage (snd (run (SW.on_install (Sample.env_with Sample.online))
                            Sample.old_storage)) in
  let s2 := storage (snd (run (SW.on_activate (Sample.env_with Sample.online)) s1)) in
  exists r,
    Sample.online (GET Sample.icon_url) = Fulfilled (Some r)
    /\ fst (SW.on_fetch (Sample.env_with Sample.offline)
              (Sample.image Sample.icon_url) (fresh s2))
       = Some (Fulfilled (Some r))
    /\ network_calls
         (trace (snd (SW.on_fetch (Sample.env_with Sample.offline)
                        (Sample.image Sample.icon_url) (fresh s2)))) = 0.
Proof.
  apply (precached_served_offline (Sample.env_with Sample.online)
           (Sample.env_with Sample.offline) Sample.old_storage _
           (Sample.image Sample.icon_url) "./icons/icon-72.png").
  - apply (bool_decide_unpack _). vm_compute. exact I.
  - vm_compute. reflexivity.
  - apply (bool_decide_unpack _). vm_compute. exact I.
  - reflexivity.
  - reflexivity.
Defined.

Lemma resolveURL_base env env' u :
  base env' = base env -> resolveURL env' u = resolveURL env u.
Proof. unfold resolveURL. by intros ->. Qed.

(** X11: after an install that reached [skipWaiting], an eligible
    navigation request whose network fetch rejects is always answered with
    a response (the cached page, or else the fallback document), never
    with [undefined] and never with a rejection. *)
Theorem offline_navigation_after_install env env' s request e :
  SkipWaiting ∈ trace (snd (run (SW.on_install env) s)) ->
  base env' = base env ->
  eligible env' request = true ->
  mode request = "navigate" ->
  network env' request = Rejected e ->
  exists r,
    fst (SW.on_fetch env' request
           (fresh (storage (snd (run (SW.on_install env) s)))))
    = Some (Fulfilled (Some r)).
Proof.
  intros Hinst Hbase Hel Hmode%String.eqb_eq Hnet.
  destruct (installed_cache_lookup env s "./index.html" Hinst)
    as (c & r0 & Hc & Hr & _).
  { apply (bool_decide_unpack _). vm_compute. exact I. }
  remember (storage (snd (run (SW.on_install env) s))) as s1 eqn:Hs1.
  destruct (storage_match (url request) s1) as [r |] eqn:Hm.
  - exists r. by rewrite (on_fetch_hit env' request s1 r Hel Hm).
  - rewrite (on_fetch_miss_rejected env' request s1 e Hel Hm Hnet). simpl.
    rewrite Hmode, (resolveURL_base env env') by done.
    destruct (storage_match_of_cache _ _ _ _ _ Hc Hr) as [r' Hr'].
    exists r'. by rewrite Hr'.
Qed.

Lemma offline_navigation_after_install_witness :
  exists r,
    fst (SW.on_fetch (Sample.env_with Sample.offline)
           (Sample.navigate Sample.about_url)
           (fresh (storage (snd (run (SW.on_install (Sample.env_with Sample.online))
                                   [])))))
    = Some (Fulfilled (Some r)).
Proof.
  apply (offline_navigation_after_install (Sample.env_with Sample.online)
           (Sample.env_with Sample.offline) []
           (Sample.navigate Sample.about_url) (TypeError "Failed to fetch")).
  - apply (bool_decide_unpack _). vm_compute. exact I.
  - reflexivity.
  - reflexivity.
  - reflexivity.
  - reflexivity.
Defined.

(** ** Background sync *)

Import BackgroundSync.

(** One turn of the loop, in terms of the queue operations. *)
Lemma replay_turn env queue :
  replay env queue =
    match shiftRequest queue with
    | (None, _) => (Fulfilled tt, [], [])
    | (Some entry, rest) =>
        match network env (request entry) with
        | Fulfilled _ =>
            let '(r, queue', tr) := replay env rest in
            (r, queue',
             NetFetch (url (request entry))
             :: ConsoleLog "[Workbox] Replay successful for:" (Some (url (request entry)))
             :: tr)
        | Rejected err =>
            (Rejected err, unshiftRequest entry rest,
             [ NetFetch (url (request entry));
               ConsoleError "[Workbox] Replay failed:" err ])
        end
    end.
Proof. by destruct queue. Qed.








(** ** The PWA checklist *)

Import App.

Lemma classList_remove_idemp tokens cl :
  classList_remove tokens (classList_remove tokens cl) = classList_remove tokens cl.
Proof.
  unfold classList_remove. induction cl as [| t cl IH]; [done |].
  rewrite filter_cons. case_decide as Ht; [| done].
  rewrite filter_cons. rewrite decide_True by done. by rewrite IH.
Qed.

Lemma classList_remove_app tokens cl cl' :
  classList_remove tokens (cl ++ cl')
  = classList_remove tokens cl ++ classList_remove tokens cl'.
Proof. apply filter_app. Qed.

Lemma classList_remove_add tokens status cl :
  status ∈ tokens ->
  classList_remove tokens (classList_add status (classList_remove tokens cl))
  = classList_remove tokens cl.
Proof.
  intros Hin. unfold classList_add.
  case_decide as Hd.
  - apply classList_remove_idemp.
  - rewrite classList_remove_app, classList_remove_idemp.
    unfold classList_remove at 2. rewrite filter_cons, decide_False by (by intros H).
    by rewrite filter_nil, app_nil_r.
Qed.

Lemma classList_add_fresh tokens status cl :
  status ∈ tokens ->
  classList_add status (classList_remove tokens cl)
  = classList_remove tokens cl ++ [status].
Proof.
  intros Hin. unfold classList_add. rewrite decide_False; [done |].
  unfold classList_remove. rewrite list_elem_of_filter. by intros [Hnot _].
Qed.

Lemma classList_removed_none tokens cl :
  filter (fun t => t ∈ tokens) (classList_remove tokens cl) = [].
Proof.
  unfold classList_remove. induction cl as [| t cl IH]; [done |].
  rewrite filter_cons. case_decide as Ht; [| done].
  rewrite filter_cons. by rewrite decide_False.
Qed.

(** X15: after [updateChecklistItem] on an existing item with one of the
    three status classes, the item carries that status class and neither
    of the other two, its other classes are kept in order, the text of its
    icon child (if any) is the new icon, and no other element changes. *)
Theorem updateChecklistItem_one_status id status icon (doc : gmap string Item) item :
  doc !! id = Some item ->
  status ∈ statusClasses ->
  exists item',
    updateChecklistItem id status icon doc !! id = Some item'
    /\ filter (fun t => t ∈ statusClasses) (classList item') = [status]
    /\ filter (fun t => t ∉ statusClasses) (classList item')
       = filter (fun t => t ∉ statusClasses) (classList item)
    /\ checkIcon item' = (fun _ => icon) <$> checkIcon item
    /\ forall id', id' <> id ->
         updateChecklistItem id status icon doc !! id' = doc !! id'.
Proof.
  intros Hitem Hst. unfold updateChecklistItem. rewrite Hitem.
  eexists. split; [apply lookup_insert_eq |]. simpl.
  fold statusClasses. rewrite classList_add_fresh by done.
  split; [| split; [| split; [reflexivity |]]].
  - rewrite filter_app, classList_removed_none, app_nil_l.
    rewrite filter_cons. rewrite decide_True by exact Hst. by rewrite filter_nil.
  - pose proof (classList_remove_add statusClasses status (classList item) Hst)
      as H.
    rewrite classList_add_fresh in H by done. exact H.
  - intros id' Hne. by rewrite lookup_insert_ne.
Qed.

Lemma updateChecklistItem_one_status_witness :
  exists item',
    updateChecklistItem "check-sw" "success" "ok" Fixture.checklist !! "check-sw"
      = Some item'
    /\ filter (fun t => t ∈ statusClasses) (classList item') = [ "success" ]
    /\ filter (fun t => t ∉ statusClasses) (classList item') = [ "checklist-item" ]
    /\ checkIcon item' = Some "ok"
    /\ forall id', id' <> "check-sw" ->
         updateChecklistItem "check-sw" "success" "ok" Fixture.checklist !! id'
         = Fixture.checklist !! id'.
Proof.
  apply (updateChecklistItem_one_status "check-sw" "success" "ok"
           Fixture.checklist
           {| classList := [ "checklist-item"; "warning" ];
              checkIcon := Some "?" |}).
  - vm_compute. reflexivity.
  - apply (bool_decide_unpack _). vm_compute. exact I.
Defined.





(** ** The install prompt *)

Lemma shown_setDisplay btn :
  InstallPrompt.shown (InstallPrompt.setDisplay "inline-flex" btn).
Proof. intros display. destruct btn; simpl; [by intros [= <-] | done]. Qed.

(** A list of calls that are not [Prompt] holds no [Prompt]. *)
Ltac no_prompt H :=
  exfalso; apply list_elem_of_In in H; simpl in H; intuition discriminate.

Lemma prompt_inv_step sp sp' :
  InstallPrompt.step sp sp' -> prompt_inv (fst sp) -> prompt_inv (fst sp').
Proof.
  intros Hstep [Hdef Hprompt].
  destruct Hstep as [e st pending | st pending | outcome st pending | st pending];
    simpl in *.
  - split.
    + intros e' [= <-]. split; [apply shown_setDisplay |].
      split; [apply shown_setDisplay |].
      apply elem_of_app. right. apply list_elem_of_In. simpl. auto.
    + intros e' [H | H]%elem_of_app; [| by no_prompt H].
      apply elem_of_app. left. by apply Hprompt.
  - unfold InstallPrompt.handleInstallClick.
    destruct (InstallPrompt.deferredPrompt st) as [e |] eqn:He; simpl.
    + destruct (Hdef e eq_refl) as (Hb & Hba & Hcap). split.
      * intros e' [= <-]. repeat split; [done | done |].
        apply elem_of_app. by left.
      * intros e' [H | H]%elem_of_app.
        -- apply elem_of_app. left. by apply Hprompt.
        -- apply list_elem_of_singleton in H. injection H as ->.
           apply elem_of_app. by left.
    + split; [done |].
      intros e' [H | H]%elem_of_app; [| by no_prompt H].
      apply elem_of_app. left. by apply Hprompt.
  - split; [done |].
    intros e' [H | H]%elem_of_app.
    + apply elem_of_app. left. by apply Hprompt.
    + destruct (String.eqb outcome "accepted"); by no_prompt H.
  - split; [done |].
    intros e' [H | H]%elem_of_app; [| by no_prompt H].
    apply elem_of_app. left. by apply Hprompt.
Qed.

(** X18: at every moment of the page's life, whatever the order of
    [beforeinstallprompt] events, clicks, settled choices and
    [appinstalled] events: while an install prompt is held, every install
    button the page has is displayed; and [prompt()] has only ever been
    called on an event the script captured (and called [preventDefault]
    on). *)
Theorem install_prompt_invariant btn btnAction st pending :
  rtc InstallPrompt.step (InstallPrompt.initial btn btnAction, 0) (st, pending) ->
  (forall e, InstallPrompt.deferredPrompt st = Some e ->
     InstallPrompt.shown (InstallPrompt.installBtn st)
     /\ InstallPrompt.shown (InstallPrompt.installBtnAction st))
  /\ (forall e, InstallPrompt.Prompt e ∈ InstallPrompt.calls st ->
        InstallPrompt.PreventDefault e ∈ InstallPrompt.calls st).
Proof.
  intros H.
  assert (prompt_inv (fst (st, pending))) as [Hdef Hprompt].
  { eapply (rtc_ind_r (fun sp => prompt_inv (fst sp))); [| | exact H].
    - split; [done |]. simpl. intros e He. by apply elem_of_nil in He.
    - intros sp sp' _ Hstep IH. by eapply prompt_inv_step. }
  split; [| done]. intros e He. by destruct (Hdef e He) as (? & ? & _).
Qed.

Lemma install_prompt_invariant_witness :
  let st := InstallPrompt.onBeforeInstallPrompt 7
              (InstallPrompt.initial (Some "none") None) in
  (forall e, InstallPrompt.deferredPrompt st = Some e ->
     InstallPrompt.shown (InstallPrompt.installBtn st)
     /\ InstallPrompt.shown (InstallPrompt.installBtnAction st))
  /\ (forall e, InstallPrompt.Prompt e ∈ InstallPrompt.calls st ->
        InstallPrompt.PreventDefault e ∈ InstallPrompt.calls st).
Proof.
  apply (install_prompt_invariant (Some "none") None _ 0).
  apply rtc_once. apply InstallPrompt.step_beforeinstallprompt.
Defined.
